(** * Fleet Management System: telemetry ingestion, alerting and queries

    A shallow embedding of [app.js] (the Express application of the
    repository): its three in-memory maps, the [Vehicle],
    [TelemetryRecord] and [Alert] classes, [generateAlerts], the
    validation helpers, the route table in registration order and every
    route handler that writes to the maps.

    Conventions.
    - A JavaScript value that arrives in a JSON body is a [jsval]; numbers
      are the values of IEEE doubles ([number]): a rational, an infinity
      or NaN.  The program only compares numbers, it never computes with
      them.
    - Strings are sequences of code units; [String.length] is the
      [.length] of the source.
    - [new Date()] and [uuidv4()] read the outside world.  The world is a
      [Runtime]: the n-th clock reading and the n-th identifier drawn, and
      the two built-in conversions of the language that the program
      triggers on values it does not control.  The state counts how many
      readings and identifiers were drawn.
    - An exception is a [None].  Two things throw on what a client can
      send: reading a property of [null] or [undefined], and comparing a
      value that [ToPrimitive] cannot convert.  What was written before
      the exception stays written, and the [catch] of the handler
      answers 500.
    - A [Map] is a [gmap]: no modelled handler depends on iteration
      order. *)

From Stdlib Require Import ZArith QArith String Ascii Lia.
From stdpp Require Import gmap strings list sorting pretty.

Local Open Scope string_scope.
Local Open Scope list_scope.
#[local] Set Warnings "-clear-no-such-hyp".

(** ** JavaScript values *)

Inductive number : Type :=
| Fin (q : Q)
| PosInf
| NegInf
| NaN.

Definition Qlt_bool (p q : Q) : bool := negb (Qle_bool q p).

(** [a < b] on numbers; any comparison with NaN is false. *)
Definition num_lt (a b : number) : bool :=
  match a, b with
  | NaN, _ | _, NaN => false
  | Fin p, Fin q => Qlt_bool p q
  | NegInf, Fin _ | NegInf, PosInf | Fin _, PosInf => true
  | _, _ => false
  end.

#[warnings="-register-all"]
Inductive jsval : Type :=
| JUndefined
| JNull
| JBool (b : bool)
| JNum (n : number)
| JStr (s : string)
| JDate (ms : Z)
| JArr (items : list jsval)
| JObj (fields : list (string * jsval)).

Definition num (z : Z) : jsval := JNum (Fin (inject_Z z)).

(** The conversions of the language on inputs the program does not
    control, the clock and the identifier generator. *)
Record Runtime : Type := {
  clock : nat → Z;
  uuid : nat → string;
  StringToNumber : string → number;
  ObjectToString : jsval → string
}.

Fixpoint assoc {A} (k : string) (l : list (string * A)) : option A :=
  match l with
  | [] => None
  | (k', v) :: l' => if String.eqb k k' then Some v else assoc k l'
  end.

(** [o.k]: [None] is the TypeError of a property read on [null] or
    [undefined]; every other value answers, [undefined] when it has no
    such property.  The fields of an object have distinct keys. *)
Definition get_prop (o : jsval) (k : string) : option jsval :=
  match o with
  | JUndefined | JNull => None
  | JObj fields => Some (default JUndefined (assoc k fields))
  | _ => Some JUndefined
  end.

(** A parameter declared with a default value: [undefined] takes it. *)
Definition or_default (v d : jsval) : jsval :=
  match v with
  | JUndefined => d
  | _ => v
  end.

(** Truthiness, as [if (v)] and [!v] read it. *)
Definition truthy (v : jsval) : bool :=
  match v with
  | JUndefined | JNull => false
  | JBool b => b
  | JNum (Fin q) => negb (Qeq_bool q 0)
  | JNum NaN => false
  | JNum _ => true
  | JStr s => negb (String.eqb s "")
  | JDate _ | JArr _ | JObj _ => true
  end.

(** [ToPrimitive] raises a TypeError.  The values the program compares
    are parsed from JSON, so no property of theirs is callable.  An
    object with an own [toString] property hides
    [Object.prototype.toString], its [valueOf] (own, or the inherited one,
    which answers the object itself) gives no primitive, and nothing is
    left to convert it.  An array is converted by
    [Array.prototype.join], which converts every element other than
    [null] and [undefined] in turn. *)
Fixpoint ToPrimitive_throws (v : jsval) : bool :=
  match v with
  | JObj fields =>
      match assoc "toString" fields with Some _ => true | None => false end
  | JArr items => existsb ToPrimitive_throws items
  | _ => false
  end.

Section Coercions.
Context (rt : Runtime).

(** [None] is the TypeError of [ToPrimitive]. *)
Definition ToNumber (v : jsval) : option number :=
  match v with
  | JUndefined => Some NaN
  | JNull => Some (Fin 0)
  | JBool b => Some (Fin (if b then 1 else 0))
  | JNum n => Some n
  | JStr s => Some (StringToNumber rt s)
  | JDate ms => Some (Fin (inject_Z ms))
  | JArr _ | JObj _ =>
      if ToPrimitive_throws v then None
      else Some (StringToNumber rt (ObjectToString rt v))
  end.

(** [v > k] and [v < k] for a number [k]; [None] when the conversion of
    [v] throws. *)
Definition js_gt (v : jsval) (k : Q) : option bool :=
  num_lt (Fin k) <$> ToNumber v.
Definition js_lt (v : jsval) (k : Q) : option bool :=
  (λ n, num_lt n (Fin k)) <$> ToNumber v.

(** [v !== null] *)
Definition not_null (v : jsval) : bool :=
  match v with JNull => false | _ => true end.
End Coercions.

(** ** [parseInt], [Array.prototype.slice], [Array.prototype.sort] *)

(** The white space of the language among the first 256 code units. *)
Definition is_space (c : ascii) : bool :=
  let n := nat_of_ascii c in
  (Nat.eqb n 9 || Nat.eqb n 10 || Nat.eqb n 11 || Nat.eqb n 12
   || Nat.eqb n 13 || Nat.eqb n 32 || Nat.eqb n 160)%bool.

Fixpoint trim_start (s : string) : string :=
  match s with
  | String c s' => if is_space c then trim_start s' else s
  | EmptyString => s
  end.

Definition digit_value (c : ascii) : option Z :=
  let n := Z.of_nat (nat_of_ascii c) in
  if ((48 <=? n) && (n <=? 57))%Z%bool then Some (n - 48)%Z
  else if ((97 <=? n) && (n <=? 122))%Z%bool then Some (n - 87)%Z
  else if ((65 <=? n) && (n <=? 90))%Z%bool then Some (n - 55)%Z
  else None.

(** Longest prefix of digits of the radix, read left to right; [None]
    when there is no digit. *)
Fixpoint read_digits (radix : Z) (acc : option Z) (s : string) : option Z :=
  match s with
  | EmptyString => acc
  | String c s' =>
      match digit_value c with
      | Some d =>
          if (d <? radix)%Z
          then read_digits radix (Some (default 0 acc * radix + d)%Z) s'
          else acc
      | None => acc
      end
  end.

(** [parseInt(s)] with no radix argument: [None] is NaN.  The value is
    the integer read; a double carries it exactly below 2^53. *)
Definition parseInt (s : string) : option Z :=
  let s := trim_start s in
  let '(sign, s) :=
    match s with
    | String "-" s' => ((-1)%Z, s')
    | String "+" s' => (1%Z, s')
    | _ => (1%Z, s)
    end in
  let '(radix, s) :=
    match s with
    | String "0" (String "x" s') | String "0" (String "X" s') => (16%Z, s')
    | _ => (10%Z, s)
    end in
  (λ v, (sign * v)%Z) <$> read_digits radix None s.

(** An index argument of [slice], relative to a length: NaN reads as 0,
    a negative index counts from the end, everything is clamped. *)
Definition slice_index {A} (k : option Z) (l : list A) : nat :=
  let len := Z.of_nat (length l) in
  match k with
  | None => 0
  | Some z => Z.to_nat (if (z <? 0)%Z then Z.max (len + z) 0 else Z.min z len)
  end.

(** [l.slice(start)] *)
Definition slice_from {A} (start : option Z) (l : list A) : list A :=
  drop (slice_index start l) l.

(** [l.slice(0, end)] *)
Definition slice_to {A} (end_ : option Z) (l : list A) : list A :=
  take (slice_index end_ l) l.

Section Sort.
Context {A : Type} (comparefn : A → A → Z).

(** [x] goes in front of the first element it does not have to follow. *)
Fixpoint sort_insert (x : A) (l : list A) : list A :=
  match l with
  | [] => [x]
  | y :: l' =>
      if (0 <? comparefn x y)%Z then y :: sort_insert x l'
      else x :: l
  end.

(** [l.sort(comparefn)]: the stable sort the language prescribes. *)
Fixpoint js_sort (l : list A) : list A :=
  match l with
  | [] => []
  | x :: l' => sort_insert x (js_sort l')
  end.
End Sort.

(** ** The classes *)

Module Vehicle.
Record t : Type := mk {
  vin : string;
  manufacturer : jsval;
  model : jsval;
  fleetId : jsval;
  owner : jsval;
  registrationStatus : jsval;
  createdAt : jsval;
  updatedAt : jsval
}.
End Vehicle.

Module TelemetryRecord.
Record t : Type := mk {
  id : string;
  vin : string;
  speed : jsval;
  fuelLevel : jsval;
  batteryLevel : jsval;
  location : jsval;
  engineStatus : jsval;
  timestamp : Z
}.
End TelemetryRecord.

(** The text of an alert is a template literal around the vehicle and the
    offending value; it is kept as the template and its two arguments. *)
Inductive message : Type :=
| ExceededSpeedLimit (vin : string) (speed : jsval)
| HasLowFuel (vin : string) (fuelLevel : jsval)
| HasLowBattery (vin : string) (batteryLevel : jsval).

Module Alert.
Record t : Type := mk {
  id : string;
  vin : string;
  type : string;
  message : message;
  severity : string;
  timestamp : Z;
  status : jsval
}.

Definition with_status (a : t) (s : jsval) : t :=
  mk (id a) (vin a) (type a) (message a) (severity a) (timestamp a) s.
End Alert.

(** ** The in-memory storage and the state monad of the handlers *)

Record World : Type := mkWorld {
  vehicles : gmap string Vehicle.t;
  telemetryData : gmap string (list TelemetryRecord.t);
  alerts : gmap string Alert.t;
  dates : nat;   (* clock readings taken so far *)
  uuids : nat    (* identifiers drawn so far *)
}.

Definition init : World := mkWorld ∅ ∅ ∅ 0 0.

Definition M (A : Type) : Type := World → A * World.

Definition ret {A} (a : A) : M A := λ w, (a, w).
Definition bind {A B} (m : M A) (f : A → M B) : M B :=
  λ w, let '(a, w') := m w in f a w'.

Declare Scope m_scope.
Delimit Scope m_scope with M.
Notation "'let*' x ':=' m 'in' k" := (bind m (λ x, k))
  (at level 10, x pattern, m at level 100, k at level 200) : m_scope.

Definition get : M World := λ w, (w, w).
Definition modify (f : World → World) : M unit := λ w, (tt, f w).

Definition set_vehicles (f : gmap string Vehicle.t → gmap string Vehicle.t)
    (w : World) : World :=
  mkWorld (f (vehicles w)) (telemetryData w) (alerts w) (dates w) (uuids w).
Definition set_telemetryData
    (f : gmap string (list TelemetryRecord.t) → gmap string (list TelemetryRecord.t))
    (w : World) : World :=
  mkWorld (vehicles w) (f (telemetryData w)) (alerts w) (dates w) (uuids w).
Definition set_alerts (f : gmap string Alert.t → gmap string Alert.t)
    (w : World) : World :=
  mkWorld (vehicles w) (telemetryData w) (f (alerts w)) (dates w) (uuids w).

Section Program.
Context (rt : Runtime).
Local Open Scope m_scope.

(** [new Date()] *)
Definition new_Date : M Z := λ w,
  (clock rt (dates w),
   mkWorld (vehicles w) (telemetryData w) (alerts w) (S (dates w)) (uuids w)).

(** [uuidv4()] *)
Definition uuidv4 : M string := λ w,
  (uuid rt (uuids w),
   mkWorld (vehicles w) (telemetryData w) (alerts w) (dates w) (S (uuids w))).

Definition new_Vehicle (vin : string)
    (manufacturer model fleetId owner registrationStatus : jsval)
    : M Vehicle.t :=
  let registrationStatus := or_default registrationStatus (JStr "Active") in
  let* createdAt := new_Date in
  let* updatedAt := new_Date in
  ret (Vehicle.mk vin manufacturer model fleetId owner registrationStatus
         (JDate createdAt) (JDate updatedAt)).

Definition new_TelemetryRecord (vin : string)
    (speed fuelLevel batteryLevel location engineStatus : jsval)
    : M TelemetryRecord.t :=
  let* id := uuidv4 in
  let* timestamp := new_Date in
  ret (TelemetryRecord.mk id vin speed fuelLevel batteryLevel location
         engineStatus timestamp).

Definition new_Alert (vin type : string) (msg : message) (severity : string)
    : M Alert.t :=
  let* id := uuidv4 in
  let* timestamp := new_Date in
  ret (Alert.mk id vin type msg severity timestamp (JStr "Active")).

(** ** Alert generation logic *)

(** [alerts.set(alert.id, alert); alertsGenerated.push(alert)] *)
Definition record_alert (alertsGenerated : list Alert.t) (alert : Alert.t)
    : M (list Alert.t) :=
  let* _ := modify (set_alerts (insert (Alert.id alert) alert)) in
  ret (alertsGenerated ++ [alert]).

(** The conditions of the three rules; [None] when the comparison
    throws.  [&&] does not evaluate the comparison of a [null] level. *)
Definition speed_violation (telemetry : TelemetryRecord.t) : option bool :=
  js_gt rt (TelemetryRecord.speed telemetry) 80%Q.

Definition low_fuel (telemetry : TelemetryRecord.t) : option bool :=
  if not_null (TelemetryRecord.fuelLevel telemetry)
  then js_lt rt (TelemetryRecord.fuelLevel telemetry) 15%Q
  else Some false.

Definition low_battery (telemetry : TelemetryRecord.t) : option bool :=
  if not_null (TelemetryRecord.batteryLevel telemetry)
  then js_lt rt (TelemetryRecord.batteryLevel telemetry) 15%Q
  else Some false.

(** [None]: a comparison threw.  The function has no [try]: the alerts
    of the rules before it are in the ledger already and stay there,
    the list of them is lost. *)
Definition generateAlerts (telemetry : TelemetryRecord.t)
    : M (option (list Alert.t)) :=
  let vin := TelemetryRecord.vin telemetry in
  let alertsGenerated := [] in
  match speed_violation telemetry with
  | None => ret None
  | Some exceeded =>
  let* alertsGenerated :=
    (if exceeded then
       let* alert := new_Alert vin "SPEED_VIOLATION"
                 (ExceededSpeedLimit vin (TelemetryRecord.speed telemetry))
                 "High" in
       record_alert alertsGenerated alert
     else ret alertsGenerated) in
  match low_fuel telemetry with
  | None => ret None
  | Some low =>
  let* alertsGenerated :=
    (if low then
       let* alert := new_Alert vin "LOW_FUEL"
                 (HasLowFuel vin (TelemetryRecord.fuelLevel telemetry))
                 "Medium" in
       record_alert alertsGenerated alert
     else ret alertsGenerated) in
  match low_battery telemetry with
  | None => ret None
  | Some low =>
  let* alertsGenerated :=
    (if low then
       let* alert := new_Alert vin "LOW_BATTERY"
                 (HasLowBattery vin (TelemetryRecord.batteryLevel telemetry))
                 "Medium" in
       record_alert alertsGenerated alert
     else ret alertsGenerated) in
  ret (Some alertsGenerated)
  end
  end
  end.

(** ** Validation helpers *)

Definition is_string (v : jsval) : bool :=
  match v with JStr _ => true | _ => false end.

Definition validateVIN (vin : jsval) : bool :=
  match vin with
  | JStr s => truthy vin && (String.length s =? 17)%nat
  | _ => false
  end.

Definition registration_statuses : list string :=
  ["Active"; "Maintenance"; "Decommissioned"].

Definition includes (l : list string) (v : jsval) : bool :=
  match v with
  | JStr s => existsb (String.eqb s) l
  | _ => false
  end.

Definition required_string (v : jsval) (error : string) : list string :=
  if negb (truthy v) || negb (is_string v) then [error] else [].

(** [None]: [data] is [null] or [undefined] and the first property read
    throws. *)
Definition validateVehicleData (data : jsval) : option (list string) :=
  vin ← get_prop data "vin";
  manufacturer ← get_prop data "manufacturer";
  model ← get_prop data "model";
  fleetId ← get_prop data "fleetId";
  owner ← get_prop data "owner";
  registrationStatus ← get_prop data "registrationStatus";
  Some
    ((if validateVIN vin then [] else ["VIN must be a 17-character string"])
     ++ required_string manufacturer
          "Manufacturer is required and must be a string"
     ++ required_string model "Model is required and must be a string"
     ++ required_string fleetId "Fleet ID is required and must be a string"
     ++ required_string owner "Owner is required and must be a string"
     ++ (if truthy registrationStatus
            && negb (includes registration_statuses registrationStatus)
         then ["Registration status must be Active, Maintenance, or Decommissioned"]
         else [])).

(** [Vehicle.prototype.update]: every own property but [vin] named by a
    key of [updates] is overwritten, then [updatedAt] is stamped. *)
Definition assign (v : Vehicle.t) (key : string) (x : jsval) : Vehicle.t :=
  let '(Vehicle.mk vin manufacturer model fleetId owner registrationStatus
          createdAt updatedAt) := v in
  if String.eqb key "manufacturer" then
    Vehicle.mk vin x model fleetId owner registrationStatus createdAt updatedAt
  else if String.eqb key "model" then
    Vehicle.mk vin manufacturer x fleetId owner registrationStatus createdAt updatedAt
  else if String.eqb key "fleetId" then
    Vehicle.mk vin manufacturer model x owner registrationStatus createdAt updatedAt
  else if String.eqb key "owner" then
    Vehicle.mk vin manufacturer model fleetId x registrationStatus createdAt updatedAt
  else if String.eqb key "registrationStatus" then
    Vehicle.mk vin manufacturer model fleetId owner x createdAt updatedAt
  else if String.eqb key "createdAt" then
    Vehicle.mk vin manufacturer model fleetId owner registrationStatus x updatedAt
  else if String.eqb key "updatedAt" then
    Vehicle.mk vin manufacturer model fleetId owner registrationStatus createdAt x
  else v.

Definition Vehicle_update (v : Vehicle.t) (updates : list (string * jsval))
    : M Vehicle.t :=
  let v := foldl (λ v kx, assign v kx.1 kx.2) v updates in
  let* now := new_Date in
  ret (Vehicle.mk (Vehicle.vin v) (Vehicle.manufacturer v) (Vehicle.model v)
         (Vehicle.fleetId v) (Vehicle.owner v) (Vehicle.registrationStatus v)
         (Vehicle.createdAt v) (JDate now)).

End Program.

(** ** Requests and responses *)

Inductive Method : Type := GET | POST | PUT | DELETE.

Global Instance Method_eq_dec : EqDecision Method.
Proof. solve_decision. Defined.

Definition Method_eqb (a b : Method) : bool :=
  match a, b with
  | GET, GET | POST, POST | PUT, PUT | DELETE, DELETE => true
  | _, _ => false
  end.

(** A request after [express.json()]: the path split at its slashes and
    spelled as the routes spell it, the query string as parsed pairs (each
    parameter given once, as text), the parsed body.  The methods are the
    four the program registers routes for. *)
Record Request : Type := mkRequest {
  method : Method;
  path : list string;
  query : list (string * string);
  body : jsval
}.

Inductive batch_result : Type :=
| BatchOk (vin : string) (telemetry : TelemetryRecord.t)
| BatchFail (vin : jsval) (msg : string).

Inductive payload : Type :=
| Errors (errors : list string)
| Failure (msg : string)
| InternalError
| VehicleData (data : Vehicle.t)
| Message (msg : string)
| TelemetryData (data : TelemetryRecord.t) (alertsGenerated : list Alert.t)
| BatchData (data : list batch_result) (totalAlertsGenerated : nat)
    (alerts : list Alert.t)
| HistoryData (data : list TelemetryRecord.t) (total : nat)
| LatestData (data : TelemetryRecord.t)
| AlertData (data : Alert.t).

(** [Respond status body] is [res.status(status).json(body)].  The
    answers of the listing routes and of the health check, which read the
    maps without writing them, are not described further. *)
Inductive response : Type :=
| Respond (status : nat) (body : payload)
| ListingResponse.

Definition has {V} (m : gmap string V) (k : string) : bool :=
  match m !! k with Some _ => true | None => false end.

(** [req.params.name] *)
Definition param (name : string) (params : list (string * string)) : string :=
  default "" (assoc name params).

(** [o.k] where [o] is known not to be [null] or [undefined] *)
Definition prop (o : jsval) (k : string) : jsval :=
  default JUndefined (get_prop o k).

(** The own enumerable properties that [{...o}] copies. *)
Definition spread (o : jsval) : list (string * jsval) :=
  match o with
  | JObj fields => fields
  | JArr items => imap (λ i x, (pretty i, x)) items
  | _ => []
  end.

Definition not_found (msg : string) : response := Respond 404 (Failure msg).

Section Handlers.
Context (rt : Runtime).
Local Open Scope m_scope.

(** *** Vehicle management routes *)

(** [app.post('/api/vehicles', ...)] *)
Definition create_vehicle (params : list (string * string)) (req : Request)
    : M response :=
  match validateVehicleData (body req) with
  | None => ret (Respond 500 InternalError)
  | Some validationErrors =>
      if (0 <? length validationErrors)%nat then
        ret (Respond 400 (Errors validationErrors))
      else
        match prop (body req) "vin" with
        | JStr vin =>
            let* w := get in
            if has (vehicles w) vin then
              ret (Respond 409 (Failure "Vehicle with this VIN already exists"))
            else
              let* vehicle :=
                new_Vehicle rt vin
                  (prop (body req) "manufacturer") (prop (body req) "model")
                  (prop (body req) "fleetId") (prop (body req) "owner")
                  (prop (body req) "registrationStatus") in
              let* _ := modify (set_vehicles (insert (Vehicle.vin vehicle) vehicle)) in
              let* _ := modify (set_telemetryData (insert (Vehicle.vin vehicle) [])) in
              ret (Respond 201 (VehicleData vehicle))
        | _ => (* not reached: a VIN that passed validation is a string *)
            ret (Respond 400 (Errors validationErrors))
        end
  end.

(** [app.get('/api/vehicles', ...)], [app.get('/api/alerts', ...)] *)
Definition listing (params : list (string * string)) (req : Request)
    : M response :=
  ret ListingResponse.

(** [app.get('/api/vehicles/:vin', ...)] *)
Definition get_vehicle (params : list (string * string)) (req : Request)
    : M response :=
  let* w := get in
  match vehicles w !! param "vin" params with
  | None => ret (not_found "Vehicle not found")
  | Some vehicle => ret (Respond 200 (VehicleData vehicle))
  end.

(** [app.put('/api/vehicles/:vin', ...)] *)
Definition update_vehicle (params : list (string * string)) (req : Request)
    : M response :=
  let* w := get in
  match vehicles w !! param "vin" params with
  | None => ret (not_found "Vehicle not found")
  | Some vehicle =>
      let updateData :=
        filter (λ kx, kx.1 ≠ "vin") (spread (body req)) in
      let* vehicle := Vehicle_update rt vehicle updateData in
      let* _ := modify (set_vehicles (insert (param "vin" params) vehicle)) in
      ret (Respond 200 (VehicleData vehicle))
  end.

(** [app.delete('/api/vehicles/:vin', ...)] *)
Definition delete_vehicle (params : list (string * string)) (req : Request)
    : M response :=
  let* w := get in
  if negb (has (vehicles w) (param "vin" params)) then
    ret (not_found "Vehicle not found")
  else
    let* _ := modify (set_vehicles (delete (param "vin" params))) in
    let* _ := modify (set_telemetryData (delete (param "vin" params))) in
    ret (Respond 200 (Message "Vehicle deleted successfully")).

(** *** Telemetry data routes *)

(** [if (!telemetryData.has(vin)) telemetryData.set(vin, []);
     telemetryData.get(vin).push(telemetry)] *)
Definition push_telemetry (vin : string) (telemetry : TelemetryRecord.t)
    : M unit :=
  modify (set_telemetryData (λ telemetryData,
    let telemetryData :=
      if negb (has telemetryData vin) then <[vin:=[]]> telemetryData
      else telemetryData in
    alter (λ records, records ++ [telemetry]) vin telemetryData)).

(** [app.post('/api/telemetry/:vin', ...)] *)
Definition post_telemetry (params : list (string * string)) (req : Request)
    : M response :=
  let vin := param "vin" params in
  let* w := get in
  if negb (has (vehicles w) vin) then ret (not_found "Vehicle not found")
  else
    match get_prop (body req) "speed" with
    | None => ret (Respond 500 InternalError)
    | Some speed =>
        let* telemetry :=
          new_TelemetryRecord rt vin speed
            (prop (body req) "fuelLevel") (prop (body req) "batteryLevel")
            (prop (body req) "location") (prop (body req) "engineStatus") in
        let* _ := push_telemetry vin telemetry in
        let* generatedAlerts := generateAlerts rt telemetry in
        match generatedAlerts with
        | None => ret (Respond 500 InternalError)
        | Some generatedAlerts =>
            ret (Respond 201 (TelemetryData telemetry generatedAlerts))
        end
    end.

(** The body of [telemetryRecords.forEach(record => ...)].  [None]: an
    exception leaves the loop and the [catch] of the handler answers,
    either because a record is [null] or [undefined] and reading its
    [vin] throws, or because a comparison of [generateAlerts] throws;
    what was written before stays written. *)
Fixpoint batch_forEach (telemetryRecords : list jsval)
    (results : list batch_result) (allAlerts : list Alert.t)
    : M (option (list batch_result * list Alert.t)) :=
  match telemetryRecords with
  | [] => ret (Some (results, allAlerts))
  | record :: rest =>
      match get_prop record "vin" with
      | None => ret None
      | Some record_vin =>
          let* w := get in
          match record_vin with
          | JStr vin =>
              if has (vehicles w) vin then
                let* telemetry :=
                  new_TelemetryRecord rt vin (prop record "speed")
                    (prop record "fuelLevel") (prop record "batteryLevel")
                    (prop record "location") (prop record "engineStatus") in
                let* _ := push_telemetry vin telemetry in
                let* generatedAlerts := generateAlerts rt telemetry in
                match generatedAlerts with
                | None => ret None
                | Some generatedAlerts =>
                    batch_forEach rest (results ++ [BatchOk vin telemetry])
                      (allAlerts ++ generatedAlerts)
                end
              else
                batch_forEach rest
                  (results ++ [BatchFail record_vin "Vehicle not found"])
                  allAlerts
          | _ =>
              batch_forEach rest
                (results ++ [BatchFail record_vin "Vehicle not found"])
                allAlerts
          end
      end
  end.

(** [app.post('/api/telemetry/batch', ...)] *)
Definition post_telemetry_batch (params : list (string * string))
    (req : Request) : M response :=
  match get_prop (body req) "records" with
  | None => ret (Respond 500 InternalError)
  | Some (JArr telemetryRecords) =>
      let* r := batch_forEach telemetryRecords [] [] in
      match r with
      | None => ret (Respond 500 InternalError)
      | Some (results, allAlerts) =>
          ret (Respond 201 (BatchData results (length allAlerts) allAlerts))
      end
  | Some _ => ret (Respond 400 (Failure "Records must be an array"))
  end.

(** [(a, b) => new Date(b.timestamp) - new Date(a.timestamp)] *)
Definition newest_first (a b : TelemetryRecord.t) : Z :=
  (TelemetryRecord.timestamp b - TelemetryRecord.timestamp a)%Z.

(** A query parameter under [if (p)]: present and not the empty string. *)
Definition given (p : option string) : option string :=
  match p with
  | Some s => if String.eqb s "" then None else Some s
  | None => None
  end.

(** [app.get('/api/telemetry/:vin', ...)].  [sort] works on the array
    held by the map: the stored order changes with the query. *)
Definition get_telemetry (params : list (string * string)) (req : Request)
    : M response :=
  let vin := param "vin" params in
  let* w := get in
  if negb (has (vehicles w) vin) then ret (not_found "Vehicle not found")
  else
    let vehicleTelemetry := default [] (telemetryData w !! vin) in
    let limit := assoc "limit" (query req) in
    let offset := assoc "offset" (query req) in
    let* _ := modify (set_telemetryData (alter (js_sort newest_first) vin)) in
    let result := js_sort newest_first vehicleTelemetry in
    let result :=
      match given offset with
      | Some offset => slice_from (parseInt offset) result
      | None => result
      end in
    let result :=
      match given limit with
      | Some limit => slice_to (parseInt limit) result
      | None => result
      end in
    ret (Respond 200 (HistoryData result (length vehicleTelemetry))).

(** [app.get('/api/telemetry/:vin/latest', ...)] *)
Definition get_telemetry_latest (params : list (string * string))
    (req : Request) : M response :=
  let vin := param "vin" params in
  let* w := get in
  if negb (has (vehicles w) vin) then ret (not_found "Vehicle not found")
  else
    let vehicleTelemetry := default [] (telemetryData w !! vin) in
    match last vehicleTelemetry with
    | None => ret (not_found "No telemetry data found for this vehicle")
    | Some latest => ret (Respond 200 (LatestData latest))
    end.

(** *** Alert routes *)

(** [app.get('/api/alerts/:alertId', ...)] *)
Definition get_alert (params : list (string * string)) (req : Request)
    : M response :=
  let* w := get in
  match alerts w !! param "alertId" params with
  | None => ret (not_found "Alert not found")
  | Some alert => ret (Respond 200 (AlertData alert))
  end.

(** [app.put('/api/alerts/:alertId', ...)] *)
Definition update_alert (params : list (string * string)) (req : Request)
    : M response :=
  let* w := get in
  match alerts w !! param "alertId" params with
  | None => ret (not_found "Alert not found")
  | Some alert =>
      match get_prop (body req) "status" with
      | None => ret (Respond 500 InternalError)
      | Some status =>
          let* alert :=
            (if truthy status then
               let alert := Alert.with_status alert status in
               let* _ :=
                 modify (set_alerts (insert (param "alertId" params) alert)) in
               ret alert
             else ret alert) in
          ret (Respond 200 (AlertData alert))
      end
  end.

(** [app.get('/api/health', ...)] *)
Definition health (params : list (string * string)) (req : Request)
    : M response :=
  let* _ := new_Date rt in
  ret ListingResponse.

(** [app.use('*', ...)] *)
Definition route_not_found : M response :=
  ret (not_found "Route not found").

End Handlers.

(** ** The route table *)

Inductive segment : Type :=
| Lit (s : string)
| Par (name : string).

(** A pattern against a path: a literal segment must be equal, a
    parameter takes one non-empty segment. *)
Fixpoint match_path (pattern : list segment) (p : list string)
    : option (list (string * string)) :=
  match pattern, p with
  | [], [] => Some []
  | Lit s :: pattern', x :: p' =>
      if String.eqb s x then match_path pattern' p' else None
  | Par name :: pattern', x :: p' =>
      if String.eqb x "" then None
      else cons (name, x) <$> match_path pattern' p'
  | _, _ => None
  end.

Definition handler : Type := list (string * string) → Request → M response.

(** The routes in the order [app.js] registers them.  No handler calls
    [next()]: the first route that matches answers. *)
Definition routes (rt : Runtime) : list (Method * list segment * handler) :=
  [ (POST,   [Lit "api"; Lit "vehicles"],                        create_vehicle rt);
    (GET,    [Lit "api"; Lit "vehicles"],                        listing);
    (GET,    [Lit "api"; Lit "vehicles"; Par "vin"],             get_vehicle);
    (PUT,    [Lit "api"; Lit "vehicles"; Par "vin"],             update_vehicle rt);
    (DELETE, [Lit "api"; Lit "vehicles"; Par "vin"],             delete_vehicle);
    (POST,   [Lit "api"; Lit "telemetry"; Par "vin"],            post_telemetry rt);
    (POST,   [Lit "api"; Lit "telemetry"; Lit "batch"],          post_telemetry_batch rt);
    (GET,    [Lit "api"; Lit "telemetry"; Par "vin"],            get_telemetry);
    (GET,    [Lit "api"; Lit "telemetry"; Par "vin"; Lit "latest"], get_telemetry_latest);
    (GET,    [Lit "api"; Lit "alerts"],                          listing);
    (GET,    [Lit "api"; Lit "alerts"; Par "alertId"],           get_alert);
    (PUT,    [Lit "api"; Lit "alerts"; Par "alertId"],           update_alert);
    (GET,    [Lit "api"; Lit "health"],                          health rt) ].

Fixpoint dispatch (table : list (Method * list segment * handler))
    (req : Request) : M response :=
  match table with
  | [] => route_not_found
  | (m, pattern, h) :: table' =>
      if Method_eqb m (method req) then
        match match_path pattern (path req) with
        | Some params => h params req
        | None => dispatch table' req
        end
      else dispatch table' req
  end.

(** The application: one request against the current storage. *)
Definition app (rt : Runtime) (req : Request) : M response :=
  dispatch (routes rt) req.

(** A sequence of requests, served one after the other. *)
Fixpoint serve (rt : Runtime) (reqs : list Request) (w : World)
    : list response * World :=
  match reqs with
  | [] => ([], w)
  | req :: reqs' =>
      let '(r, w') := app rt req w in
      let '(rs, w'') := serve rt reqs' w' in
      (r :: rs, w'')
  end.

Definition reachable (rt : Runtime) (w : World) : Prop :=
  ∃ reqs, (serve rt reqs init).2 = w.

(** Requests as a client writes them. *)
Definition POST_vehicles (b : jsval) : Request :=
  mkRequest POST ["api"; "vehicles"] [] b.
Definition DELETE_vehicle (vin : string) : Request :=
  mkRequest DELETE ["api"; "vehicles"; vin] [] (JObj []).
Definition POST_telemetry (vin : string) (b : jsval) : Request :=
  mkRequest POST ["api"; "telemetry"; vin] [] b.
Definition POST_telemetry_batch (records : list jsval) : Request :=
  mkRequest POST ["api"; "telemetry"; "batch"] [] (JObj [("records", JArr records)]).
Definition GET_telemetry (vin : string) (q : list (string * string)) : Request :=
  mkRequest GET ["api"; "telemetry"; vin] q (JObj []).
Definition GET_telemetry_latest (vin : string) : Request :=
  mkRequest GET ["api"; "telemetry"; vin; "latest"] [] (JObj []).
Definition PUT_alert (alertId : string) (status : jsval) : Request :=
  mkRequest PUT ["api"; "alerts"; alertId] [] (JObj [("status", status)]).

(** A runtime for worked examples: the clock advances one second per
    reading and identifiers are numbered.  The examples send numbers
    only, so the conversions of strings and objects are never consulted. *)
Definition example_runtime : Runtime := {|
  clock := λ n, (1000 * Z.of_nat n)%Z;
  uuid := λ n, pretty n;
  StringToNumber := λ _, NaN;
  ObjectToString := λ _, "[object Object]"
|}.

Definition vehicle_body (vin : string) : jsval :=
  JObj [("vin", JStr vin); ("manufacturer", JStr "Tesla");
        ("model", JStr "Model S"); ("fleetId", JStr "Corporate");
        ("owner", JStr "John Doe"); ("registrationStatus", JStr "Active")].

Definition telemetry_body (speed fuelLevel batteryLevel : jsval) : jsval :=
  JObj [("speed", speed); ("fuelLevel", fuelLevel);
        ("batteryLevel", batteryLevel); ("engineStatus", JStr "Running")].

Definition VIN1 : string := "1HGCM82633A123456".
Definition VIN2 : string := "2HGCM82633A123456".


(** ** Vocabulary of the properties *)

(** The alert kinds and severities of the rule table, as [app.js] spells
    them. *)
Definition SpeedViolation : string := "SPEED_VIOLATION".
Definition LowFuel : string := "LOW_FUEL".
Definition LowBattery : string := "LOW_BATTERY".
Definition High : string := "High".
Definition Medium : string := "Medium".

(** Kind and severity of an alert. *)
Definition event (a : Alert.t) : string * string :=
  (Alert.type a, Alert.severity a).

(** A field that carries no value: [null], or missing from the body. *)
Definition absent (v : jsval) : Prop := v = JNull ∨ v = JUndefined.

(** A rule fires: its condition was evaluated and holds. *)
Definition fires (condition : option bool) : bool := default false condition.

(** The three fields the rules compare all convert to a number: no
    comparison throws on the reading. *)
Definition comparable (t : TelemetryRecord.t) : bool :=
  negb (ToPrimitive_throws (TelemetryRecord.speed t))
  && negb (ToPrimitive_throws (TelemetryRecord.fuelLevel t))
  && negb (ToPrimitive_throws (TelemetryRecord.batteryLevel t)).

(** The kinds and severities the rules raise on a reading, when no
    comparison throws. *)
Definition raised (rt : Runtime) (t : TelemetryRecord.t)
    : list (string * string) :=
  (if fires (speed_violation rt t) then [(SpeedViolation, High)] else [])
  ++ (if fires (low_fuel rt t) then [(LowFuel, Medium)] else [])
  ++ (if fires (low_battery rt t) then [(LowBattery, Medium)] else []).

(** The readings held for a vehicle: [telemetryData.get(vin) || []]. *)
Definition stored (w : World) (vin : string) : list TelemetryRecord.t :=
  default [] (telemetryData w !! vin).

Definition known (w : World) (vin : string) : Prop :=
  has (vehicles w) vin = true.

(** What a query parameter asks for: nothing when it is missing, or the
    natural number its text reads as. *)
Definition reads (p : option string) (n : option nat) : Prop :=
  match n with
  | None => p = None
  | Some n => ∃ s, p = Some s ∧ s ≠ "" ∧ parseInt s = Some (Z.of_nat n)
  end.

(** Skip that many from the newest end; unbounded by default. *)
Definition skip {A} (offset : option nat) (l : list A) : list A :=
  match offset with Some n => drop n l | None => l end.

(** Cap the count returned; unbounded by default. *)
Definition cap {A} (limit : option nat) (l : list A) : list A :=
  match limit with Some n => take n l | None => l end.

(** Newest first: along the list timestamps never increase. *)
Definition non_increasing (l : list TelemetryRecord.t) : Prop :=
  StronglySorted
    (λ a b, (TelemetryRecord.timestamp b ≤ TelemetryRecord.timestamp a)%Z) l.

(** Oldest first: along the list timestamps never decrease. *)
Definition non_decreasing (l : list TelemetryRecord.t) : Prop :=
  StronglySorted
    (λ a b, (TelemetryRecord.timestamp a ≤ TelemetryRecord.timestamp b)%Z) l.

(** The request is a deletion of some vehicle: it reaches the delete
    route. *)
Definition deletion (req : Request) : bool :=
  match method req, path req with
  | DELETE, [a; b; vin] =>
      String.eqb "api" a && String.eqb "vehicles" b && negb (String.eqb vin "")
  | _, _ => false
  end.

(** The request deletes vehicle [vin]. *)
Definition deletes (vin : string) (req : Request) : bool :=
  deletion req && bool_decide (path req = ["api"; "vehicles"; vin]).

(** The request asks for the history of vehicle [vin]. *)
Definition queries_history (vin : string) (req : Request) : bool :=
  bool_decide (method req = GET ∧ path req = ["api"; "telemetry"; vin]).

(** The reading a response reports as appended for vehicle [vin]. *)
Definition appended_for (vin : string) (r : response)
    : list TelemetryRecord.t :=
  match r with
  | Respond _ (TelemetryData t _) =>
      if decide (TelemetryRecord.vin t = vin) then [t] else []
  | _ => []
  end.

(** The readings a run of responses reports for [vin], in order. *)
Definition appended (vin : string) (rs : list response)
    : list TelemetryRecord.t :=
  concat (map (appended_for vin) rs).

(** Alert [a] is what one of the three rules makes of reading [t]. *)
Definition produced (rt : Runtime) (t : TelemetryRecord.t) (a : Alert.t)
    : Prop :=
  Alert.vin a = TelemetryRecord.vin t ∧
  ((speed_violation rt t = Some true ∧ event a = (SpeedViolation, High)) ∨
   (low_fuel rt t = Some true ∧ event a = (LowFuel, Medium)) ∨
   (low_battery rt t = Some true ∧ event a = (LowBattery, Medium))).

(** Every known VIN has the seventeen characters validation asks for. *)
Definition vins_validated (w : World) : Prop :=
  ∀ vin, known w vin → String.length vin = 17.

(** Every alert of the ledger names a known vehicle that holds a reading
    which produced it. *)
Definition grounded (rt : Runtime) (w : World) : Prop :=
  ∀ id a, alerts w !! id = Some a →
    known w (Alert.vin a) ∧
    ∃ t, t ∈ stored w (Alert.vin a) ∧ produced rt t a.

(** No orphan alerts: every alert of the ledger names a vehicle that
    holds a reading which produced it. *)
Definition no_orphans (rt : Runtime) (w : World) : Prop :=
  ∀ id a, alerts w !! id = Some a →
    ∃ t, t ∈ stored w (Alert.vin a) ∧ produced rt t a.

(** Where a request ends up.  There is no case for the batch handler:
    [/api/telemetry/:vin] is registered first and takes every path the
    batch route would take. *)
Inductive routed (rt : Runtime) (req : Request) : M response → Prop :=
| to_create_vehicle :
    method req = POST → path req = ["api"; "vehicles"] →
    routed rt req (create_vehicle rt [] req)
| to_list_vehicles :
    method req = GET → path req = ["api"; "vehicles"] →
    routed rt req (listing [] req)
| to_get_vehicle vin :
    method req = GET → path req = ["api"; "vehicles"; vin] → vin ≠ "" →
    routed rt req (get_vehicle [("vin", vin)] req)
| to_update_vehicle vin :
    method req = PUT → path req = ["api"; "vehicles"; vin] → vin ≠ "" →
    routed rt req (update_vehicle rt [("vin", vin)] req)
| to_delete_vehicle vin :
    method req = DELETE → path req = ["api"; "vehicles"; vin] → vin ≠ "" →
    routed rt req (delete_vehicle [("vin", vin)] req)
| to_post_telemetry vin :
    method req = POST → path req = ["api"; "telemetry"; vin] → vin ≠ "" →
    routed rt req (post_telemetry rt [("vin", vin)] req)
| to_get_telemetry vin :
    method req = GET → path req = ["api"; "telemetry"; vin] → vin ≠ "" →
    routed rt req (get_telemetry [("vin", vin)] req)
| to_get_telemetry_latest vin :
    method req = GET → path req = ["api"; "telemetry"; vin; "latest"] →
    vin ≠ "" →
    routed rt req (get_telemetry_latest [("vin", vin)] req)
| to_list_alerts :
    method req = GET → path req = ["api"; "alerts"] →
    routed rt req (listing [] req)
| to_get_alert alertId :
    method req = GET → path req = ["api"; "alerts"; alertId] → alertId ≠ "" →
    routed rt req (get_alert [("alertId", alertId)] req)
| to_update_alert alertId :
    method req = PUT → path req = ["api"; "alerts"; alertId] → alertId ≠ "" →
    routed rt req (update_alert [("alertId", alertId)] req)
| to_health :
    method req = GET → path req = ["api"; "health"] →
    routed rt req (health rt [] req)
| to_route_not_found :
    deletion req = false →
    routed rt req route_not_found.

(** ** The rule engine as the specification words it *)

Module RuleEngineSpec.
(** The configuration object of the specification. *)
Record Config : Type := {
  speedLimit : Q;
  lowFuelThreshold : Q;
  lowBatteryThreshold : Q
}.

Definition defaults : Config :=
  {| speedLimit := 80; lowFuelThreshold := 15; lowBatteryThreshold := 15 |}.

Definition present (v : jsval) : bool :=
  match v with JNull | JUndefined => false | _ => true end.

(** A value is above, or below, a threshold: it has a number, and the
    number is. *)
Definition above (rt : Runtime) (v : jsval) (k : Q) : bool :=
  default false (js_gt rt v k).
Definition below (rt : Runtime) (v : jsval) (k : Q) : bool :=
  default false (js_lt rt v k).

(** The rule table evaluated against a configuration: kinds and
    severities in the order SpeedViolation, LowFuel, LowBattery. *)
Definition evaluate (rt : Runtime) (cfg : Config) (t : TelemetryRecord.t)
    : list (string * string) :=
  (if above rt (TelemetryRecord.speed t) (speedLimit cfg)
   then [(SpeedViolation, High)] else [])
  ++ (if present (TelemetryRecord.fuelLevel t)
         && below rt (TelemetryRecord.fuelLevel t) (lowFuelThreshold cfg)
      then [(LowFuel, Medium)] else [])
  ++ (if present (TelemetryRecord.batteryLevel t)
         && below rt (TelemetryRecord.batteryLevel t) (lowBatteryThreshold cfg)
      then [(LowBattery, Medium)] else []).
End RuleEngineSpec.

(** ** Worked scenarios *)

(** One vehicle, a speeding reading, then the vehicle is deleted. *)
Definition deletion_scenario : list Request :=
  [ POST_vehicles (vehicle_body VIN1);
    POST_telemetry VIN1 (telemetry_body (num 90) (num 50) (num 50));
    DELETE_vehicle VIN1 ].

(** Two vehicles are registered. *)
Definition two_vehicles : list Request :=
  [ POST_vehicles (vehicle_body VIN1); POST_vehicles (vehicle_body VIN2) ].

(** Three records, the second for a vehicle nobody registered. *)
Definition batch_of_three : Request :=
  POST_telemetry_batch
    [ JObj [("vin", JStr VIN1); ("speed", num 85); ("fuelLevel", num 50);
            ("batteryLevel", num 50)];
      JObj [("vin", JStr "9XXXX00000X000000"); ("speed", num 95);
            ("fuelLevel", num 50); ("batteryLevel", num 50)];
      JObj [("vin", JStr VIN2); ("speed", num 30); ("fuelLevel", num 10);
            ("batteryLevel", JNull)] ].

(** Readings for two vehicles, a history query in between. *)
Definition interleaved_appends : list Request :=
  [ POST_telemetry VIN1 (telemetry_body (num 60) (num 50) (num 50));
    POST_telemetry VIN2 (telemetry_body (num 95) (num 50) (num 50));
    GET_telemetry VIN1 [];
    POST_telemetry VIN1 (telemetry_body (num 70) (num 50) (num 50));
    GET_telemetry VIN2 [("limit", "1")] ].

(** A level that no comparison converts: its own [toString] is not a
    function. *)
Definition unconvertible : jsval := JObj [("toString", num 1)].

(** The same, then a reading whose speed does not convert. *)
Definition thrown_ingestion : list Request :=
  interleaved_appends
  ++ [ POST_telemetry VIN1 (telemetry_body unconvertible (num 50) (num 50)) ].

(** The fields of a body that ingestion takes:
    [const { speed, fuelLevel, batteryLevel, location, engineStatus } =
     req.body]. *)
Definition ingested_fields : list string :=
  ["speed"; "fuelLevel"; "batteryLevel"; "location"; "engineStatus"].

(** A reading sent with an odometer value, and a vehicle that sends one
    reading for each value of a list. *)
Definition odometer_body (odometer : Z) : jsval :=
  JObj [("speed", num 50); ("fuelLevel", num 50); ("batteryLevel", num 50);
        ("odometer", num odometer)].
Definition odometer_run (odometers : list Z) : list Request :=
  POST_vehicles (vehicle_body VIN1)
  :: map (λ odometer, POST_telemetry VIN1 (odometer_body odometer)) odometers.

(** A vehicle, a speeding reading, the alert acknowledged. *)
Definition alert_scenario : list Request :=
  [ POST_vehicles (vehicle_body VIN1);
    POST_telemetry VIN1 (telemetry_body (num 90) (num 50) (num 50));
    PUT_alert "1" (JStr "Acknowledged");
    GET_telemetry VIN1 [] ].

(** One vehicle and two readings, one second apart. *)
Definition two_readings : list Request :=
  [ POST_vehicles (vehicle_body VIN1);
    POST_telemetry VIN1 (telemetry_body (num 60) (num 50) (num 50));
    POST_telemetry VIN1 (telemetry_body (num 70) (num 50) (num 50)) ].

(** ** Vocabulary of the further properties *)

(** What the storage keeps true: a vehicle sits under its own VIN; the
    telemetry map has an entry exactly for the registered vehicles; a
    reading sits under its own VIN and carries a clock reading already
    taken; an alert sits under its own identifier, which is one of the
    identifiers already drawn. *)
Definition consistent (rt : Runtime) (w : World) : Prop :=
  (∀ k v, vehicles w !! k = Some v → Vehicle.vin v = k) ∧
  (∀ k, is_Some (telemetryData w !! k) ↔ is_Some (vehicles w !! k)) ∧
  (∀ k records t, telemetryData w !! k = Some records → t ∈ records →
     TelemetryRecord.vin t = k ∧
     ∃ i, (i < dates w)%nat ∧ TelemetryRecord.timestamp t = clock rt i) ∧
  (∀ k a, alerts w !! k = Some a →
     Alert.id a = k ∧ ∃ i, (i < uuids w)%nat ∧ k = uuid rt i).

(** The request asks for the history of some vehicle. *)
Definition history_query (req : Request) : bool :=
  match method req, path req with
  | GET, [a; b; vin] =>
      String.eqb "api" a && String.eqb "telemetry" b && negb (String.eqb vin "")
  | _, _ => false
  end.

(** The request updates the status of alert [alertId]. *)
Definition updates_alert (alertId : string) (req : Request) : bool :=
  bool_decide (method req = PUT ∧ path req = ["api"; "alerts"; alertId]).

(** The clock never runs backwards. *)
Definition monotone_clock (rt : Runtime) : Prop :=
  ∀ i j, (i ≤ j)%nat → (clock rt i ≤ clock rt j)%Z.

(** [v === s] for a text [s] *)
Definition is_text (s : string) (v : jsval) : bool :=
  match v with
  | JStr s' => String.eqb s' s
  | _ => false
  end.

(** [(a, b) => new Date(b.timestamp) - new Date(a.timestamp)] on alerts *)
Definition newest_alert_first (a b : Alert.t) : Z :=
  (Alert.timestamp b - Alert.timestamp a)%Z.

(** One [if (p) alertList = alertList.filter(...)] of the alert listing. *)
Definition filter_by (p : option string) (test : string → Alert.t → bool)
    (alertList : list Alert.t) : list Alert.t :=
  match given p with
  | Some x => List.filter (test x) alertList
  | None => alertList
  end.

(** The [data] of [app.get('/api/alerts', ...)], from the alerts of the
    ledger in insertion order ([Array.from(alerts.values())]): the four
    optional filters, then the sort; [total] is its length. *)
Definition list_alerts (q : list (string * string)) (alertList : list Alert.t)
    : list Alert.t :=
  let alertList :=
    filter_by (assoc "vin" q) (λ vin a, String.eqb (Alert.vin a) vin) alertList in
  let alertList :=
    filter_by (assoc "type" q) (λ type a, String.eqb (Alert.type a) type) alertList in
  let alertList :=
    filter_by (assoc "severity" q)
      (λ severity a, String.eqb (Alert.severity a) severity) alertList in
  let alertList :=
    filter_by (assoc "status" q) (λ status a, is_text status (Alert.status a))
      alertList in
  js_sort newest_alert_first alertList.

(** An alert passes every filter the query gives. *)
Definition passes (q : list (string * string)) (a : Alert.t) : bool :=
  match given (assoc "vin" q) with
  | Some vin => String.eqb (Alert.vin a) vin | None => true end
  && match given (assoc "type" q) with
     | Some type => String.eqb (Alert.type a) type | None => true end
  && match given (assoc "severity" q) with
     | Some severity => String.eqb (Alert.severity a) severity | None => true end
  && match given (assoc "status" q) with
     | Some status => is_text status (Alert.status a) | None => true end.

(** The [stats] of [app.get('/api/health', ...)]: [totalVehicles],
    [totalAlerts], [totalTelemetryRecords]. *)
Definition health_stats (w : World) : nat * nat * nat :=
  (size (vehicles w), size (alerts w),
   map_fold (λ _ records sum, (sum + length records)%nat) 0%nat
     (telemetryData w)).

(** The result a batch reports for one record is a success. *)
Definition batch_ok (r : batch_result) : bool :=
  match r with BatchOk _ _ => true | BatchFail _ _ => false end.

(** The record names a registered vehicle: [vehicles.has(record.vin)]. *)
Definition names_known (w : World) (record : jsval) : bool :=
  match prop record "vin" with
  | JStr vin => has (vehicles w) vin
  | _ => false
  end.

(** The readings a batch reports as stored for [vin], in order. *)
Definition batch_appended (vin : string) (results : list batch_result)
    : list TelemetryRecord.t :=
  flat_map
    (λ r, match r with
          | BatchOk v t => if decide (v = vin) then [t] else []
          | BatchFail _ _ => []
          end) results.

(** What a batch reports for one record, given the registry: a success
    with the reading made of the record's fields when the record names a
    registered vehicle, a failure that repeats the record's [vin]
    otherwise. *)
Definition batch_reports (registry : gmap string Vehicle.t) (record : jsval)
    (r : batch_result) : Prop :=
  match r with
  | BatchOk vin t =>
      prop record "vin" = JStr vin ∧ has registry vin = true ∧
      TelemetryRecord.vin t = vin ∧
      TelemetryRecord.speed t = prop record "speed" ∧
      TelemetryRecord.fuelLevel t = prop record "fuelLevel" ∧
      TelemetryRecord.batteryLevel t = prop record "batteryLevel" ∧
      TelemetryRecord.location t = prop record "location" ∧
      TelemetryRecord.engineStatus t = prop record "engineStatus"
  | BatchFail vin msg =>
      vin = prop record "vin" ∧ msg = "Vehicle not found" ∧
      ∀ s, vin = JStr s → has registry s = false
  end.

(** The record is an object or a primitive other than [null] and
    [undefined]: reading a property of it does not throw. *)
Definition readable (record : jsval) : Prop :=
  record ≠ JNull ∧ record ≠ JUndefined.

(** The three levels of the record convert to numbers: no comparison
    throws on the reading made of it. *)
Definition levels_convert (record : jsval) : bool :=
  negb (ToPrimitive_throws (prop record "speed"))
  && negb (ToPrimitive_throws (prop record "fuelLevel"))
  && negb (ToPrimitive_throws (prop record "batteryLevel")).

(** The batch gets past the record without an exception: the record is
    readable, and when it names a registered vehicle its levels
    convert. *)
Definition passable (registry : gmap string Vehicle.t) (record : jsval)
    : Prop :=
  readable record ∧
  ∀ vin, prop record "vin" = JStr vin → has registry vin = true →
    levels_convert record = true.

(** More requests as a client writes them. *)
Definition GET_vehicle (vin : string) : Request :=
  mkRequest GET ["api"; "vehicles"; vin] [] (JObj []).
Definition PUT_vehicle (vin : string) (b : jsval) : Request :=
  mkRequest PUT ["api"; "vehicles"; vin] [] b.
Definition GET_alert (alertId : string) : Request :=
  mkRequest GET ["api"; "alerts"; alertId] [] (JObj []).

(** * Properties *)

(** ** Sorting and slicing *)

Section SortFacts.
Context {A : Type} (comparefn : A → A → Z).

Lemma sort_insert_Permutation x l : sort_insert comparefn x l ≡ₚ x :: l.
Proof.
  induction l as [|y l IH]; simpl; [done|].
  destruct (0 <? comparefn x y)%Z; [|done].
  rewrite IH. apply Permutation_swap.
Qed.

Lemma js_sort_Permutation l : js_sort comparefn l ≡ₚ l.
Proof.
  induction l as [|x l IH]; simpl; [done|].
  by rewrite sort_insert_Permutation, IH.
Qed.

Lemma js_sort_length l : length (js_sort comparefn l) = length l.
Proof. by rewrite js_sort_Permutation. Qed.
End SortFacts.

Lemma sort_insert_newest_first x l :
  non_increasing l → non_increasing (sort_insert newest_first x l).
Proof.
  unfold non_increasing. induction l as [|y l IH]; simpl; intros Hl.
  - repeat constructor.
  - apply StronglySorted_inv in Hl as [Hl Hy].
    destruct (0 <? newest_first x y)%Z eqn:Hc; unfold newest_first in Hc.
    + constructor; [by apply IH|].
      rewrite sort_insert_Permutation. constructor; [lia|done].
    + constructor; [by constructor|].
      constructor; [lia|].
      eapply Forall_impl; [exact Hy|]. simpl. intros; lia.
Qed.

Lemma js_sort_newest_first l : non_increasing (js_sort newest_first l).
Proof.
  induction l as [|x l IH]; simpl; [constructor|].
  by apply sort_insert_newest_first.
Qed.

(** A newest-first list ends on a reading no other reading is older than. *)
Lemma non_increasing_last l r :
  non_increasing l → last l = Some r →
  Forall (λ a, (TelemetryRecord.timestamp r ≤ TelemetryRecord.timestamp a)%Z) l.
Proof.
  unfold non_increasing. induction l as [|x l IH]; intros Hl Hr; [done|].
  apply StronglySorted_inv in Hl as [Hl Hx].
  destruct l as [|y l].
  - simpl in Hr. injection Hr as ->. repeat constructor. lia.
  - assert (last (y :: l) = Some r) as Hr' by done.
    constructor; [|by apply IH].
    rewrite Forall_forall in Hx. apply Hx.
    rewrite last_Some in Hr'. destruct Hr' as [l' ->]. set_solver.
Qed.

Lemma slice_from_nat {A} (n : nat) (l : list A) :
  slice_from (Some (Z.of_nat n)) l = drop n l.
Proof.
  unfold slice_from, slice_index.
  destruct (Z.ltb_spec (Z.of_nat n) 0); [lia|].
  destruct (decide (n ≤ length l)%nat).
  - f_equal. lia.
  - rewrite !drop_ge; [done|lia..].
Qed.

Lemma slice_to_nat {A} (n : nat) (l : list A) :
  slice_to (Some (Z.of_nat n)) l = take n l.
Proof.
  unfold slice_to, slice_index.
  destruct (Z.ltb_spec (Z.of_nat n) 0); [lia|].
  destruct (decide (n ≤ length l)%nat).
  - f_equal. lia.
  - rewrite !take_ge; [done|lia..].
Qed.

(** *** Decimal numerals *)

Lemma digit_value_pretty d :
  (d < 10)%N → digit_value (pretty_N_char d) = Some (Z.of_N d).
Proof.
  intros Hd.
  assert (d = 0 ∨ d = 1 ∨ d = 2 ∨ d = 3 ∨ d = 4 ∨ d = 5 ∨ d = 6 ∨ d = 7
          ∨ d = 8 ∨ d = 9)%N as Hcases by lia.
  by repeat destruct Hcases as [->|Hcases]; [..|subst].
Qed.

Lemma read_digits_pretty_char acc d s :
  (d < 10)%N →
  read_digits 10 acc (String (pretty_N_char d) s) =
    read_digits 10 (Some (default 0 acc * 10 + Z.of_N d)%Z) s.
Proof.
  intros Hd. simpl. rewrite digit_value_pretty by done.
  by destruct (Z.ltb_spec (Z.of_N d) 10); [|lia].
Qed.

(** A decimal numeral starts with a digit other than 0 and reads as the
    number it writes. *)
Lemma pretty_N_go_reads x : ∀ s,
  (0 < x)%N →
  ∃ d s', (0 < d < 10)%N ∧
    pretty_N_go x s = String (pretty_N_char d) s' ∧
    read_digits 10 None (pretty_N_go x s) =
      read_digits 10 (Some (Z.of_N x)) s.
Proof.
  induction (N.lt_wf_0 x) as [x _ IH]. intros s Hx.
  rewrite pretty_N_go_step by done.
  assert (x `mod` 10 < 10)%N as Hmod by (apply N.mod_lt; lia).
  pose proof (N.div_mod x 10 ltac:(lia)) as Hdiv.
  destruct (decide (x `div` 10 = 0)%N) as [Hzero|Hpos].
  - rewrite Hzero, pretty_N_go_0. exists (x `mod` 10)%N, s.
    split; [lia|]. split; [done|].
    rewrite read_digits_pretty_char by done. simpl. do 2 f_equal. lia.
  - destruct (IH (x `div` 10)%N ltac:(apply N.div_lt; lia)
                (String (pretty_N_char (x `mod` 10)) s) ltac:(lia))
      as (d & s' & Hd & Hhead & Hread).
    exists d, s'. split; [done|]. split; [done|].
    rewrite Hread, read_digits_pretty_char by done. simpl. do 2 f_equal. lia.
Qed.

Lemma parseInt_leading_digit d s :
  (0 < d < 10)%N →
  parseInt (String (pretty_N_char d) s) =
    read_digits 10 None (String (pretty_N_char d) s).
Proof.
  intros Hd.
  assert (d = 1 ∨ d = 2 ∨ d = 3 ∨ d = 4 ∨ d = 5 ∨ d = 6 ∨ d = 7
          ∨ d = 8 ∨ d = 9)%N as Hcases by lia.
  repeat destruct Hcases as [->|Hcases]; [..|subst].
  all: unfold parseInt; simpl.
  all: destruct (read_digits _ _ s) as [z|]; simpl; [|done].
  all: f_equal; by destruct z.
Qed.

(** [parseInt] reads a decimal numeral as the number it writes. *)
Lemma parseInt_pretty (n : nat) : parseInt (pretty n) = Some (Z.of_nat n).
Proof.
  unfold pretty, pretty_nat, pretty, pretty_N.
  destruct (decide (N.of_nat n = 0%N)) as [Hzero|Hpos].
  - assert (n = 0%nat) as -> by lia. reflexivity.
  - destruct (pretty_N_go_reads (N.of_nat n) "" ltac:(lia))
      as (d & s' & Hd & Hhead & Hread).
    rewrite Hhead in *. rewrite parseInt_leading_digit, Hread by done.
    simpl. f_equal. lia.
Qed.

Lemma non_increasing_drop n l : non_increasing l → non_increasing (drop n l).
Proof.
  unfold non_increasing. intros Hl. rewrite <- (take_drop n l) in Hl.
  by apply StronglySorted_app_1_r in Hl.
Qed.

Lemma non_increasing_take n l : non_increasing l → non_increasing (take n l).
Proof.
  unfold non_increasing. intros Hl. rewrite <- (take_drop n l) in Hl.
  by apply StronglySorted_app_1_l in Hl.
Qed.

(** ** The rule engine *)

Ltac run_monad :=
  unfold bind, ret, modify, get, new_Alert, record_alert, uuidv4, new_Date,
    new_TelemetryRecord, push_telemetry; cbn.

Section RuleEngine.
Context (rt : Runtime).

Lemma js_gt_throws v k : js_gt rt v k = None ↔ ToPrimitive_throws v = true.
Proof.
  unfold js_gt, ToNumber.
  destruct v as [| | | | | |items|fields]; try (simpl; split; discriminate).
  all: by destruct (ToPrimitive_throws _).
Qed.

Lemma js_lt_throws v k : js_lt rt v k = None ↔ ToPrimitive_throws v = true.
Proof.
  unfold js_lt, ToNumber.
  destruct v as [| | | | | |items|fields]; try (simpl; split; discriminate).
  all: by destruct (ToPrimitive_throws _).
Qed.

Lemma speed_violation_throws t :
  speed_violation rt t = None ↔
  ToPrimitive_throws (TelemetryRecord.speed t) = true.
Proof. apply js_gt_throws. Qed.

Lemma low_fuel_throws t :
  low_fuel rt t = None ↔
  ToPrimitive_throws (TelemetryRecord.fuelLevel t) = true.
Proof.
  unfold low_fuel. destruct (not_null _) eqn:Hnull; [apply js_lt_throws|].
  by destruct (TelemetryRecord.fuelLevel t).
Qed.

Lemma low_battery_throws t :
  low_battery rt t = None ↔
  ToPrimitive_throws (TelemetryRecord.batteryLevel t) = true.
Proof.
  unfold low_battery. destruct (not_null _) eqn:Hnull; [apply js_lt_throws|].
  by destruct (TelemetryRecord.batteryLevel t).
Qed.

(** A reading is comparable exactly when each rule has a verdict. *)
Lemma comparable_verdicts t :
  comparable t = true ↔
  is_Some (speed_violation rt t) ∧ is_Some (low_fuel rt t) ∧
  is_Some (low_battery rt t).
Proof.
  rewrite <- !not_eq_None_Some.
  rewrite speed_violation_throws, low_fuel_throws, low_battery_throws.
  unfold comparable.
  destruct (ToPrimitive_throws (TelemetryRecord.speed t)),
    (ToPrimitive_throws (TelemetryRecord.fuelLevel t)),
    (ToPrimitive_throws (TelemetryRecord.batteryLevel t)); simpl;
    naive_solver.
Qed.

Lemma not_comparable t :
  comparable t = false ↔
  speed_violation rt t = None ∨ low_fuel rt t = None ∨
  low_battery rt t = None.
Proof.
  rewrite speed_violation_throws, low_fuel_throws, low_battery_throws.
  unfold comparable.
  destruct (ToPrimitive_throws (TelemetryRecord.speed t)),
    (ToPrimitive_throws (TelemetryRecord.fuelLevel t)),
    (ToPrimitive_throws (TelemetryRecord.batteryLevel t)); simpl;
    naive_solver.
Qed.

(** Which alerts a reading raises, and in which order; no list when a
    comparison throws. *)
Lemma generateAlerts_events t w :
  map event <$> (generateAlerts rt t w).1 =
    if comparable t then Some (raised rt t) else None.
Proof.
  destruct (comparable t) eqn:Hc.
  - apply comparable_verdicts in Hc as ([s Hs] & [f Hf] & [b Hb]).
    unfold generateAlerts, raised. rewrite Hs, Hf, Hb.
    destruct s, f, b; run_monad; reflexivity.
  - apply not_comparable in Hc. unfold generateAlerts.
    destruct (speed_violation rt t) as [[]|]; [| |done].
    all: destruct (low_fuel rt t) as [[]|]; [| |by run_monad].
    all: destruct (low_battery rt t) as [[]|]; [| |by run_monad].
    all: exfalso; naive_solver.
Qed.

(** What generating alerts does to the storage, whether it returns or
    throws: the ledger gains alerts the rules make of the reading and
    nothing else is written; the list returned is made of such alerts
    and holds every alert the ledger gained. *)
Lemma generateAlerts_storage t w :
  let '(result, w') := generateAlerts rt t w in
  vehicles w' = vehicles w ∧ telemetryData w' = telemetryData w ∧
  Forall (produced rt t) (default [] result) ∧
  (∀ id a, alerts w' !! id = Some a →
     alerts w !! id = Some a ∨ produced rt t a) ∧
  (∀ generated, result = Some generated →
     ∀ id a, alerts w' !! id = Some a →
       alerts w !! id = Some a ∨ a ∈ generated).
Proof.
  unfold generateAlerts, produced.
  destruct (speed_violation rt t) as [[]|] eqn:Hs;
    [| |by run_monad; repeat split; auto; constructor].
  all: destruct (low_fuel rt t) as [[]|] eqn:Hf.
  all: try destruct (low_battery rt t) as [[]|] eqn:Hb.
  all: run_monad.
  all: split; [done|split; [done|split; [|split]]].
  all: try (intros generated [= <-]).
  all: try (intros id a; rewrite ?lookup_insert_Some, ?elem_of_cons;
            unfold event; simpl; naive_solver).
  all: repeat (constructor; [split; [reflexivity|tauto]|]); constructor.
Qed.
End RuleEngine.

(** ** Routing *)

#[local] Arguments create_vehicle : simpl never.
#[local] Arguments listing : simpl never.
#[local] Arguments get_vehicle : simpl never.
#[local] Arguments update_vehicle : simpl never.
#[local] Arguments delete_vehicle : simpl never.
#[local] Arguments post_telemetry : simpl never.
#[local] Arguments post_telemetry_batch : simpl never.
#[local] Arguments get_telemetry : simpl never.
#[local] Arguments get_telemetry_latest : simpl never.
#[local] Arguments get_alert : simpl never.
#[local] Arguments update_alert : simpl never.
#[local] Arguments health : simpl never.
#[local] Arguments route_not_found : simpl never.

Section Routing.
#[local] Arguments String.eqb : simpl never.

Ltac split_eqb :=
  repeat match goal with
    | |- context [String.eqb ?x ?y] =>
        destruct (String.eqb_spec x y); try discriminate; subst; cbn
    end.

(** Every request is answered by one of twelve handlers or by the
    catch-all; the batch handler is not among them. *)
Lemma app_routed rt req : routed rt req (app rt req).
Proof.
  destruct req as [m p q b]. unfold app, routes.
  destruct m, p as [|x1 [|x2 [|x3 [|x4 [|x5 p]]]]]; cbn; split_eqb;
    solve [ econstructor; cbn; done
          | apply to_route_not_found; cbn; split_eqb; done ].
Qed.
End Routing.

(** ** One request against the storage *)

#[local] Arguments generateAlerts : simpl never.
#[local] Arguments validateVehicleData : simpl never.
#[local] Arguments Vehicle_update : simpl never.
#[local] Arguments js_sort : simpl never.
#[local] Arguments or_default : simpl never.

Lemma has_true {V} (m : gmap string V) k : has m k = true ↔ is_Some (m !! k).
Proof. unfold has. destruct (m !! k); split; (done || by intros [??]). Qed.

Lemma has_false {V} (m : gmap string V) k : has m k = false ↔ m !! k = None.
Proof. unfold has. by destruct (m !! k). Qed.

Lemma has_insert {V} (m : gmap string V) k k' x :
  has m k = true → has (<[k':=x]> m) k = true.
Proof.
  rewrite !has_true, lookup_insert_is_Some. destruct (decide (k' = k)); auto.
Qed.

Lemma has_delete_ne {V} (m : gmap string V) k k' :
  k' ≠ k → has (delete k' m) k = has m k.
Proof. intros. unfold has. by rewrite lookup_delete_ne. Qed.

Lemma Vehicle_update_storage rt v updates w :
  let '(_, w') := Vehicle_update rt v updates w in
  vehicles w' = vehicles w ∧ telemetryData w' = telemetryData w ∧
  alerts w' = alerts w.
Proof. unfold Vehicle_update. run_monad. done. Qed.

(** Replace a finished call by what the storage lemmas say about it. *)
Ltac use_storage :=
  repeat match goal with
    | H : generateAlerts ?rt ?t ?w = (_, _) |- _ =>
        let Hg := fresh "Hgen" in
        pose proof (generateAlerts_storage rt t w) as Hg;
        rewrite H in Hg; destruct Hg as (? & ? & ? & ? & ?); clear H
    | H : Vehicle_update ?rt ?v ?u ?w = (_, _) |- _ =>
        let Hu := fresh "Hupd" in
        pose proof (Vehicle_update_storage rt v u w) as Hu;
        rewrite H in Hu; destruct Hu as (? & ? & ?); clear H
    end.

Ltac run_handler :=
  unfold create_vehicle, listing, get_vehicle, update_vehicle,
    delete_vehicle, post_telemetry, get_telemetry, get_telemetry_latest,
    get_alert, update_alert, health, route_not_found, not_found; run_monad;
  repeat case_match; use_storage; simplify_eq; cbn in *.

Lemma pushed_lookup (td : gmap string (list TelemetryRecord.t)) vin t :
  alter (λ records, records ++ [t]) vin
    (if negb (has td vin) then <[vin:=[]]> td else td) !! vin
  = Some (default [] (td !! vin) ++ [t]).
Proof.
  rewrite lookup_alter_eq. destruct (has td vin) eqn:Hh; simpl.
  - by apply has_true in Hh as [records ->].
  - rewrite lookup_insert_eq. by apply has_false in Hh as ->.
Qed.

Lemma pushed_lookup_ne (td : gmap string (list TelemetryRecord.t)) vin t k :
  k ≠ vin →
  alter (λ records, records ++ [t]) vin
    (if negb (has td vin) then <[vin:=[]]> td else td) !! k
  = td !! k.
Proof.
  intros Hk. rewrite lookup_alter_ne by done.
  destruct (negb (has td vin)); rewrite ?lookup_insert_ne by done; done.
Qed.

(** One request and the readings held for a vehicle it does not delete:
    the array keeps what it held and gains the reading the answer
    reports, or a reading nobody reports when the ingestion is answered
    500 after the push; only a history query changes the order. *)
Lemma app_stored rt req w v :
  known w v → deletes v req = false →
  let '(r, w') := app rt req w in
  known w' v ∧
  ∃ unreported,
    stored w' v ≡ₚ stored w v ++ appended_for v r ++ unreported ∧
    (r ≠ Respond 500 InternalError → unreported = []) ∧
    (queries_history v req = false →
     stored w' v = stored w v ++ appended_for v r ++ unreported).
Proof.
  intros Hv Hdel. unfold known in *.
  destruct (app_routed rt req) as
    [Hm Hp|Hm Hp|vin Hm Hp Hne|vin Hm Hp Hne|vin Hm Hp Hne|vin Hm Hp Hne
    |vin Hm Hp Hne|vin Hm Hp Hne|Hm Hp|id Hm Hp Hne|id Hm Hp Hne|Hm Hp|Hd].
  all: run_handler.
  all: unfold stored, set_telemetryData, set_vehicles, set_alerts in *; cbn in *.
  all: try (split; [congruence|exists []; rewrite ?app_nil_r;
            split; [by repeat f_equal|split; [done|intros; by repeat f_equal]]]).
  all: try ((* history, with and without limit and offset *)
    split; [done|]; exists []; rewrite !app_nil_r;
    (destruct (decide (vin = v)) as [->|Hvin];
     [ rewrite lookup_alter_eq; split; [|split; [done|]];
       [ destruct (telemetryData w !! v); simpl;
         [apply js_sort_Permutation|done]
       | unfold queries_history; rewrite Hm, Hp;
         intros Hq; by apply bool_decide_eq_false in Hq as [] ]
     | by rewrite lookup_alter_ne ])).
  - (* create *)
    match goal with H : has (vehicles w) ?s = false |- _ =>
      assert (s ≠ v) by (intros ->; congruence) end.
    rewrite lookup_insert_ne by done. split; [by apply has_insert|].
    exists []. by rewrite !app_nil_r.
  - (* update *)
    match goal with
    | H1 : vehicles ?w1 = vehicles w, H2 : telemetryData ?w1 = telemetryData w
      |- _ => rewrite H1, H2 end.
    split; [by apply has_insert|]. exists []. by rewrite !app_nil_r.
  - (* delete *)
    assert (vin ≠ v).
    { intros ->. unfold deletes, deletion in Hdel. rewrite Hm, Hp in Hdel.
      rewrite bool_decide_eq_true_2 in Hdel by done. cbn in Hdel.
      apply String.eqb_neq in Hne. by rewrite Hne in Hdel. }
    rewrite has_delete_ne, lookup_delete_ne by done.
    split; [done|]. exists []. by rewrite !app_nil_r.
  - (* a reading is stored and answered *)
    match goal with
    | H1 : vehicles ?w1 = _, H2 : telemetryData ?w1 = _ |- _ =>
        rewrite H1, H2 end.
    split; [done|]. exists []. rewrite !app_nil_r. split; [|split; [done|intros _]].
    all: destruct (decide (vin = v)) as [->|Hvin];
      [ by rewrite pushed_lookup
      | by rewrite pushed_lookup_ne, app_nil_r by done ].
  - (* a reading is stored and a comparison throws *)
    match goal with
    | H1 : vehicles ?w1 = _, H2 : telemetryData ?w1 = _ |- _ =>
        rewrite H1, H2 end.
    split; [done|].
    destruct (decide (vin = v)) as [->|Hvin].
    + eexists [_]. rewrite pushed_lookup. simpl.
      split; [reflexivity|]. split; [by intros []|done].
    + exists []. rewrite pushed_lookup_ne, app_nil_r by done. done.
Qed.

Lemma deletion_deletes v req : deletion req = false → deletes v req = false.
Proof. unfold deletes. by intros ->. Qed.

(** ** A run of requests *)

Lemma serve_cons rt req reqs w :
  serve rt (req :: reqs) w =
    let '(r, w') := app rt req w in
    let '(rs, w'') := serve rt reqs w' in
    (r :: rs, w'').
Proof. reflexivity. Qed.

(** A run of requests and the readings held for a vehicle that no
    request deletes. *)
Lemma serve_stored rt reqs w v :
  known w v → Forall (λ req, deletes v req = false) reqs →
  let '(rs, w') := serve rt reqs w in
  known w' v ∧
  ∃ unreported,
    stored w' v ≡ₚ stored w v ++ appended v rs ++ unreported ∧
    (Forall (λ r, r ≠ Respond 500 InternalError) rs → unreported = []).
Proof.
  intros Hv Hdel. revert w Hv.
  induction Hdel as [|req reqs Hreq Hreqs IH]; intros w Hv.
  - simpl. split; [done|]. exists []. unfold appended. simpl.
    by rewrite app_nil_r.
  - rewrite serve_cons.
    pose proof (app_stored rt req w v Hv Hreq) as Hstep.
    destruct (app rt req w) as [r w1].
    destruct Hstep as (Hv1 & u1 & Hperm & Hnone & _).
    specialize (IH w1 Hv1). destruct (serve rt reqs w1) as [rs w2].
    destruct IH as (Hv2 & u2 & Hperm2 & Hnone2).
    split; [done|]. exists (u1 ++ u2). split.
    + rewrite Hperm2, Hperm. unfold appended. simpl.
      rewrite <- !(assoc_L (++)). do 2 f_equiv.
      rewrite !(assoc_L (++)). f_equiv. apply Permutation_app_comm.
    + intros [Hr Hrs]%Forall_cons. by rewrite Hnone, Hnone2.
Qed.

(** ** The telemetry queries *)

Section Queries.
Context (rt : Runtime).

Lemma app_get_telemetry vin q b :
  vin ≠ "" →
  app rt (mkRequest GET ["api"; "telemetry"; vin] q b) =
    get_telemetry [("vin", vin)] (mkRequest GET ["api"; "telemetry"; vin] q b).
Proof.
  intros Hne%String.eqb_neq. unfold app, routes. cbn. by rewrite Hne.
Qed.

Lemma app_get_telemetry_latest vin q b :
  vin ≠ "" →
  app rt (mkRequest GET ["api"; "telemetry"; vin; "latest"] q b) =
    get_telemetry_latest [("vin", vin)]
      (mkRequest GET ["api"; "telemetry"; vin; "latest"] q b).
Proof.
  intros Hne%String.eqb_neq. unfold app, routes. cbn. by rewrite Hne.
Qed.

Lemma app_update_alert alertId q b :
  alertId ≠ "" →
  app rt (mkRequest PUT ["api"; "alerts"; alertId] q b) =
    update_alert [("alertId", alertId)]
      (mkRequest PUT ["api"; "alerts"; alertId] q b).
Proof.
  intros Hne%String.eqb_neq. unfold app, routes. cbn. by rewrite Hne.
Qed.

Lemma app_post_telemetry vin q b :
  vin ≠ "" →
  app rt (mkRequest POST ["api"; "telemetry"; vin] q b) =
    post_telemetry rt [("vin", vin)]
      (mkRequest POST ["api"; "telemetry"; vin] q b).
Proof.
  intros Hne%String.eqb_neq. unfold app, routes. cbn. by rewrite Hne.
Qed.

(** The ingestion handler on a known vehicle and a body that is there:
    the reading is pushed, then the rules are evaluated; when a
    comparison throws the answer is 500 and the reading stays. *)
Lemma post_telemetry_known w vin q b :
  known w vin → b ≠ JNull → b ≠ JUndefined →
  post_telemetry rt [("vin", vin)]
    (mkRequest POST ["api"; "telemetry"; vin] q b) w =
    let t := TelemetryRecord.mk (uuid rt (uuids w)) vin (prop b "speed")
               (prop b "fuelLevel") (prop b "batteryLevel")
               (prop b "location") (prop b "engineStatus")
               (clock rt (dates w)) in
    let w0 :=
      set_telemetryData
        (λ telemetryData,
           alter (λ records, records ++ [t]) vin
             (if negb (has telemetryData vin) then <[vin:=[]]> telemetryData
              else telemetryData))
        (mkWorld (vehicles w) (telemetryData w) (alerts w) (S (dates w))
           (S (uuids w))) in
    let '(result, w1) := generateAlerts rt t w0 in
    (match result with
     | Some generated => Respond 201 (TelemetryData t generated)
     | None => Respond 500 InternalError
     end, w1).
Proof.
  intros Hknown Hnull Hundef. unfold post_telemetry. run_monad.
  unfold known in Hknown. rewrite Hknown.
  destruct b; try done; cbn; by destruct (generateAlerts rt _ _) as [[?|] ?].
Qed.

Lemma given_reads p n :
  reads p (Some n) → ∃ s, given p = Some s ∧ parseInt s = Some (Z.of_nat n).
Proof.
  intros (s & -> & Hs%String.eqb_neq & Hn). exists s. simpl. by rewrite Hs.
Qed.

Lemma given_absent p : reads p None → given p = None.
Proof. by intros ->. Qed.

(** The history handler on a known vehicle: the stored array is sorted
    where it lies, and the answer is a window of it. *)
Lemma get_telemetry_known w vin q b offset limit :
  known w vin →
  reads (assoc "offset" q) offset → reads (assoc "limit" q) limit →
  get_telemetry [("vin", vin)] (mkRequest GET ["api"; "telemetry"; vin] q b) w =
    (Respond 200
       (HistoryData
          (cap limit (skip offset (js_sort newest_first (stored w vin))))
          (length (stored w vin))),
     set_telemetryData (alter (js_sort newest_first) vin) w).
Proof.
  intros Hv Ho Hl. unfold get_telemetry. run_monad.
  unfold known in Hv. rewrite Hv. cbn. unfold stored. do 2 f_equal.
  f_equal.
  destruct offset as [n|], limit as [m|]; simpl.
  - apply given_reads in Ho as (so & -> & ->).
    apply given_reads in Hl as (sl & -> & ->).
    by rewrite slice_from_nat, slice_to_nat.
  - apply given_reads in Ho as (so & -> & ->).
    apply given_absent in Hl as ->. by rewrite slice_from_nat.
  - apply given_absent in Ho as ->.
    apply given_reads in Hl as (sl & -> & ->). by rewrite slice_to_nat.
  - apply given_absent in Ho as ->. by apply given_absent in Hl as ->.
Qed.

Lemma get_telemetry_latest_known w vin q b :
  known w vin →
  get_telemetry_latest [("vin", vin)]
    (mkRequest GET ["api"; "telemetry"; vin; "latest"] q b) w =
    (match last (stored w vin) with
     | Some latest => Respond 200 (LatestData latest)
     | None => not_found "No telemetry data found for this vehicle"
     end, w).
Proof.
  intros Hv. unfold get_telemetry_latest. run_monad.
  unfold known in Hv. rewrite Hv. cbn. unfold stored.
  by destruct (last _).
Qed.
End Queries.

Lemma get_telemetry_storage w vin q b :
  known w vin →
  (get_telemetry [("vin", vin)] (mkRequest GET ["api"; "telemetry"; vin] q b) w).2 =
    set_telemetryData (alter (js_sort newest_first) vin) w.
Proof.
  intros Hv. unfold get_telemetry. run_monad.
  unfold known in Hv. by rewrite Hv.
Qed.

Lemma non_increasing_skip_cap offset limit l :
  non_increasing l → non_increasing (cap limit (skip offset l)).
Proof.
  intros Hl. destruct offset, limit; simpl;
    auto using non_increasing_take, non_increasing_drop.
Qed.

Lemma reads_numeral n : reads (Some (pretty n)) (Some n).
Proof.
  pose proof (parseInt_pretty n) as Hread.
  exists (pretty n). split; [done|]. split; [|done].
  intros Hempty. by rewrite Hempty in Hread.
Qed.

(** C1: for a known vehicle, whatever requests are served in between (for
    this vehicle or for others, as long as none deletes it), the history
    query answers with the readings held for the vehicle, ordered newest
    first (timestamps never increase): those it held before, those the
    answers of the run report as appended for it, and those an ingestion
    stored before it was answered 500, of which there are none when no
    answer of the run is a 500.  An offset skips that many readings from
    the newest end, a limit caps the count, and a missing parameter
    leaves that side unbounded; offset and limit are read with
    [parseInt], which reads every decimal numeral as its number. *)
Theorem history_newest_first rt w v reqs :
  known w v → v ≠ "" →
  Forall (λ req, deletes v req = false) reqs →
  let '(rs, w') := serve rt reqs w in
  ∃ sorted unreported,
    sorted ≡ₚ stored w' v ∧
    sorted ≡ₚ stored w v ++ appended v rs ++ unreported ∧
    (Forall (λ r, r ≠ Respond 500 InternalError) rs → unreported = []) ∧
    non_increasing sorted ∧
    (app rt (GET_telemetry v []) w').1 =
      Respond 200 (HistoryData sorted (length sorted)) ∧
    (∀ offset limit : nat,
       (app rt (GET_telemetry v [("offset", pretty offset);
                                 ("limit", pretty limit)]) w').1 =
         Respond 200
           (HistoryData (take limit (drop offset sorted)) (length sorted))) ∧
    ∀ q offset limit,
      reads (assoc "offset" q) offset → reads (assoc "limit" q) limit →
      (app rt (GET_telemetry v q) w').1 =
        Respond 200
          (HistoryData (cap limit (skip offset sorted)) (length sorted)) ∧
      non_increasing (cap limit (skip offset sorted)).
Proof.
  intros Hv Hne Hdel.
  pose proof (serve_stored rt reqs w v Hv Hdel) as Hrun.
  destruct (serve rt reqs w) as [rs w'].
  destruct Hrun as (Hv' & unreported & Hperm & Hnone).
  assert (∀ q offset limit,
    reads (assoc "offset" q) offset → reads (assoc "limit" q) limit →
    (app rt (GET_telemetry v q) w').1 =
      Respond 200
        (HistoryData
           (cap limit (skip offset (js_sort newest_first (stored w' v))))
           (length (js_sort newest_first (stored w' v))))) as Hanswer.
  { intros q offset limit Ho Hl.
    unfold GET_telemetry. rewrite app_get_telemetry by done.
    rewrite (get_telemetry_known w' v q _ offset limit) by done.
    simpl. by rewrite js_sort_length. }
  exists (js_sort newest_first (stored w' v)), unreported.
  split; [apply js_sort_Permutation|].
  split; [by rewrite js_sort_Permutation|].
  split; [done|]. split; [apply js_sort_newest_first|].
  split; [exact (Hanswer [] None None eq_refl eq_refl)|]. split.
  - intros offset limit.
    apply (Hanswer _ (Some offset) (Some limit)); apply reads_numeral.
  - intros q offset limit Ho Hl. split; [by apply Hanswer|].
    apply non_increasing_skip_cap, js_sort_newest_first.
Qed.

(** C2: the latest query answers with the last element of the array the
    vehicle holds.  Right after an ingestion that is the reading made of
    the body just ingested, whatever came before; for a vehicle that
    holds no reading it is "No telemetry data found".  It is not always
    the most recent reading: the history query sorts the array where it
    lies, and after the readings R1 and Rn were appended in this order
    and the history asked for once, the latest query answers with R1,
    the oldest. *)
Theorem latest_is_last_of_array rt :
  (∀ w v b,
     v ≠ "" → known w v → b ≠ JNull → b ≠ JUndefined →
     let t := TelemetryRecord.mk (uuid rt (uuids w)) v (prop b "speed")
                (prop b "fuelLevel") (prop b "batteryLevel")
                (prop b "location") (prop b "engineStatus")
                (clock rt (dates w)) in
     let w1 := (app rt (POST_telemetry v b) w).2 in
     app rt (GET_telemetry_latest v) w1 = (Respond 200 (LatestData t), w1)) ∧
  (∀ w v,
     v ≠ "" → known w v → stored w v = [] →
     app rt (GET_telemetry_latest v) w =
       (not_found "No telemetry data found for this vehicle", w)) ∧
  (let R1 := TelemetryRecord.mk "0" VIN1 (num 60) (num 50) (num 50)
               JUndefined (JStr "Running") 2000 in
   let Rn := TelemetryRecord.mk "1" VIN1 (num 70) (num 50) (num 50)
               JUndefined (JStr "Running") 3000 in
   let '(rs, w) := serve example_runtime two_readings init in
   appended VIN1 rs = [R1; Rn] ∧
   (TelemetryRecord.timestamp R1 < TelemetryRecord.timestamp Rn)%Z ∧
   app example_runtime (GET_telemetry_latest VIN1) w =
     (Respond 200 (LatestData Rn), w) ∧
   let w1 := (app example_runtime (GET_telemetry VIN1 []) w).2 in
   app example_runtime (GET_telemetry_latest VIN1) w1 =
     (Respond 200 (LatestData R1), w1) ∧
   R1 ≠ Rn).
Proof.
  split; [|split].
  - intros w v b Hne Hv Hnull Hundef t w1. unfold GET_telemetry_latest.
    rewrite app_get_telemetry_latest by done.
    assert (known w1 v ∧ stored w1 v = stored w v ++ [t]) as [Hv1 Hstored].
    { unfold w1, POST_telemetry.
      rewrite app_post_telemetry, post_telemetry_known by done. cbv zeta.
      fold t.
      match goal with |- context [generateAlerts rt t ?w0] =>
        pose proof (generateAlerts_storage rt t w0) as Hgen;
        destruct (generateAlerts rt t w0) as [result w2]
      end.
      destruct Hgen as (Hvehicles & Hdata & _). unfold known, stored.
      simpl in *. rewrite Hvehicles, Hdata. split; [done|].
      by rewrite pushed_lookup. }
    rewrite get_telemetry_latest_known by done.
    by rewrite Hstored, last_snoc.
  - intros w v Hne Hv Hempty. unfold GET_telemetry_latest.
    rewrite app_get_telemetry_latest by done.
    rewrite get_telemetry_latest_known by done. by rewrite Hempty.
  - vm_compute. repeat split; discriminate.
Qed.

(** C10: the history query sorts the array the map holds.  For a vehicle
    whose stored readings are in appending order with timestamps that
    never decrease and a first timestamp below the last, after a history
    query the stored array is the newest-first one and the latest query
    answers with a reading of the earliest timestamp, not with the
    reading appended last; when the timestamps are strictly increasing
    it is the reading appended first. *)
Theorem history_reorders_storage rt w v records R1 Rn q :
  known w v → v ≠ "" →
  telemetryData w !! v = Some records →
  non_decreasing records →
  head records = Some R1 → last records = Some Rn →
  (TelemetryRecord.timestamp R1 < TelemetryRecord.timestamp Rn)%Z →
  let w1 := (app rt (GET_telemetry v q) w).2 in
  telemetryData w1 !! v = Some (js_sort newest_first records) ∧
  non_increasing (js_sort newest_first records) ∧
  ∃ r,
    app rt (GET_telemetry_latest v) w1 = (Respond 200 (LatestData r), w1) ∧
    r ∈ records ∧
    TelemetryRecord.timestamp r = TelemetryRecord.timestamp R1 ∧
    r ≠ Rn ∧
    (StronglySorted
       (λ a b, (TelemetryRecord.timestamp a < TelemetryRecord.timestamp b)%Z)
       records → r = R1).
Proof.
  intros Hv Hne Hrec Hsorted Hhead Hlast Hlt. simpl.
  unfold GET_telemetry. rewrite app_get_telemetry by done.
  rewrite get_telemetry_storage by done.
  set (w1 := set_telemetryData (alter (js_sort newest_first) v) w).
  assert (telemetryData w1 !! v = Some (js_sort newest_first records)) as Hrec1.
  { unfold w1. simpl. by rewrite lookup_alter_eq, Hrec. }
  split; [done|]. split; [apply js_sort_newest_first|].
  assert (known w1 v) as Hv1 by done.
  unfold GET_telemetry_latest. rewrite app_get_telemetry_latest by done.
  rewrite get_telemetry_latest_known by done.
  unfold stored. rewrite Hrec1. simpl.
  destruct records as [|x records]; [done|]. injection Hhead as ->.
  destruct (last (js_sort newest_first (R1 :: records))) as [r|] eqn:Hr.
  2: { apply last_None in Hr. apply (f_equal length) in Hr.
       by rewrite js_sort_length in Hr. }
  exists r. split; [done|].
  assert (r ∈ R1 :: records) as Hin.
  { rewrite <- (js_sort_Permutation newest_first). apply last_Some in Hr as [l' ->].
    set_solver. }
  pose proof (non_increasing_last _ _ (js_sort_newest_first (R1 :: records)) Hr)
    as Hmin.
  rewrite js_sort_Permutation in Hmin.
  apply Forall_cons in Hmin as [Hmin _].
  apply StronglySorted_inv in Hsorted as [_ Hfirst].
  assert (TelemetryRecord.timestamp r = TelemetryRecord.timestamp R1) as Hts.
  { apply elem_of_cons in Hin as [->|Hin]; [done|].
    rewrite Forall_forall in Hfirst. specialize (Hfirst r Hin). lia. }
  split; [done|]. split; [done|]. split.
  - intros ->. lia.
  - intros Hstrict. apply StronglySorted_inv in Hstrict as [_ Hall].
    apply elem_of_cons in Hin as [->|Hin]; [done|].
    rewrite Forall_forall in Hall. specialize (Hall r Hin). lia.
Qed.

(** C6: updating the status of an alert the ledger does not hold answers
    that the alert was not found and leaves the whole storage as it was;
    for an alert the ledger holds, any status value replaces the current
    one, whatever the current one is, and nothing else changes. *)
Theorem update_status rt w alertId q :
  alertId ≠ "" →
  (alerts w !! alertId = None →
   ∀ b, app rt (mkRequest PUT ["api"; "alerts"; alertId] q b) w =
          (not_found "Alert not found", w)) ∧
  (∀ alert newStatus,
     alerts w !! alertId = Some alert → newStatus ≠ "" →
     app rt (PUT_alert alertId (JStr newStatus)) w =
       (Respond 200 (AlertData (Alert.with_status alert (JStr newStatus))),
        set_alerts (insert alertId (Alert.with_status alert (JStr newStatus))) w)).
Proof.
  intros Hne. split.
  - intros Hnone b. rewrite app_update_alert by done.
    unfold update_alert. run_monad. by rewrite Hnone.
  - intros alert newStatus Hsome Hnew%String.eqb_neq. unfold PUT_alert.
    rewrite app_update_alert by done.
    unfold update_alert. run_monad. rewrite Hsome. cbn. by rewrite Hnew.
Qed.

(** ** What a reading raises *)

(** C3: a reading with speed 85, fuel level 50 and battery level 50 raises
    exactly one alert, a speed violation of high severity; in general, on
    a reading whose three levels convert to numbers, each of the three
    rules fires on its own condition, so one reading may raise several
    alerts, and they come in the order speed violation, low fuel, low
    battery; on a reading with a level that does not convert the
    comparison throws and no list of alerts is returned. *)
Theorem rules_fire_independently rt :
  (∀ id vin location engineStatus timestamp w,
     map event <$>
       (generateAlerts rt
          (TelemetryRecord.mk id vin (num 85) (num 50) (num 50) location
             engineStatus timestamp) w).1 =
       Some [(SpeedViolation, High)]) ∧
  (∀ t w,
     comparable t = true →
     map event <$> (generateAlerts rt t w).1 =
       Some
         ((if fires (speed_violation rt t) then [(SpeedViolation, High)]
           else [])
          ++ (if fires (low_fuel rt t) then [(LowFuel, Medium)] else [])
          ++ (if fires (low_battery rt t) then [(LowBattery, Medium)]
              else []))) ∧
  (∀ t w, comparable t = false → (generateAlerts rt t w).1 = None) ∧
  (∀ id vin location engineStatus timestamp w,
     map event <$>
       (generateAlerts rt
          (TelemetryRecord.mk id vin (num 90) (num 10) (num 5) location
             engineStatus timestamp) w).1 =
       Some [(SpeedViolation, High); (LowFuel, Medium); (LowBattery, Medium)]).
Proof.
  split; [|split; [|split]].
  - intros. by rewrite generateAlerts_events.
  - intros t w Hc. by rewrite generateAlerts_events, Hc.
  - intros t w Hc. pose proof (generateAlerts_events rt t w) as Hevents.
    rewrite Hc in Hevents. by destruct (generateAlerts rt t w).1.
  - intros. by rewrite generateAlerts_events.
Qed.

Lemma absent_not_low rt v :
  absent v → (if not_null v then js_lt rt v 15 else Some false) = Some false.
Proof. by intros [-> | ->]. Qed.

Lemma produced_by_speed rt t a :
  absent (TelemetryRecord.fuelLevel t) →
  absent (TelemetryRecord.batteryLevel t) →
  produced rt t a → Alert.type a ≠ LowFuel ∧ Alert.type a ≠ LowBattery.
Proof.
  intros Hf Hb [_ Hrule]. unfold low_fuel, low_battery in Hrule.
  rewrite !absent_not_low in Hrule by done.
  destruct Hrule as [[_ Hevent]|[[? _]|[? _]]]; [|done..].
  unfold event in Hevent. injection Hevent as -> _. done.
Qed.

(** C4: a reading whose fuel level and battery level are both absent
    raises no low-fuel and no low-battery alert, whatever its speed,
    neither in the list returned nor in the ledger; a reading with fuel
    level 10, no battery level and speed 30 raises exactly one alert, a
    low-fuel one. *)
Theorem absence_is_not_a_violation rt :
  (∀ t w a,
     absent (TelemetryRecord.fuelLevel t) →
     absent (TelemetryRecord.batteryLevel t) →
     a ∈ default [] (generateAlerts rt t w).1 ∨
     (∃ id, alerts (generateAlerts rt t w).2 !! id = Some a ∧
            alerts w !! id ≠ Some a) →
     Alert.type a ≠ LowFuel ∧ Alert.type a ≠ LowBattery) ∧
  (∀ id vin batteryLevel location engineStatus timestamp w,
     absent batteryLevel →
     map event <$>
       (generateAlerts rt
          (TelemetryRecord.mk id vin (num 30) (num 10) batteryLevel location
             engineStatus timestamp) w).1 =
       Some [(LowFuel, Medium)]).
Proof.
  split.
  - intros t w a Hf Hb Ha.
    pose proof (generateAlerts_storage rt t w) as Hgen.
    destruct (generateAlerts rt t w) as [result w'].
    destruct Hgen as (_ & _ & Hlist & Hledger & _). simpl in Ha.
    apply (produced_by_speed rt t a Hf Hb).
    destruct Ha as [Ha|(id & Ha & Hnew)].
    + by apply (proj1 (Forall_forall _ _) Hlist).
    + by destruct (Hledger id a Ha).
  - intros id vin batteryLevel location engineStatus timestamp w Hb.
    rewrite generateAlerts_events. unfold comparable, raised, low_battery.
    simpl. rewrite absent_not_low by done. by destruct Hb as [-> | ->].
Qed.

Lemma witness_absence :
  ∃ generated,
    (generateAlerts example_runtime
       (TelemetryRecord.mk "0" VIN1 (num 120) JNull JUndefined JUndefined
          (JStr "Running") 0) init).1 = Some generated ∧
    length generated = 1%nat ∧
    Forall (λ a, Alert.type a ≠ LowFuel ∧ Alert.type a ≠ LowBattery)
      generated.
Proof.
  eexists. split; [vm_compute; reflexivity|]. split; [reflexivity|].
  apply Forall_forall. intros a Ha.
  apply (proj1 (absence_is_not_a_violation example_runtime)
           (TelemetryRecord.mk "0" VIN1 (num 120) JNull JUndefined JUndefined
              (JStr "Running") 0) init a).
  - left. reflexivity.
  - right. reflexivity.
  - left. exact Ha.
Defined.

Lemma raised_evaluate rt t :
  raised rt t = RuleEngineSpec.evaluate rt RuleEngineSpec.defaults t.
Proof.
  assert (∀ v, fires (if not_null v then js_lt rt v 15 else Some false) =
               RuleEngineSpec.present v && RuleEngineSpec.below rt v 15)
    as Hlevel by (by intros []).
  unfold raised, RuleEngineSpec.evaluate, low_fuel, low_battery.
  by rewrite !Hlevel.
Qed.

(** C7, as the program has it: the thresholds are the constants 80, 15
    and 15 written into [generateAlerts], which takes the reading and
    nothing else; on every reading whose levels convert to numbers it
    raises what the rule table raises under the default configuration,
    and on any other reading a comparison throws and it returns
    nothing. *)
Theorem thresholds_are_the_defaults rt t w :
  map event <$> (generateAlerts rt t w).1 =
    if comparable t
    then Some (RuleEngineSpec.evaluate rt RuleEngineSpec.defaults t)
    else None.
Proof. by rewrite generateAlerts_events, raised_evaluate. Qed.

(** C7 fails as stated: under a configured speed limit of 100 a reading
    at speed 90 raises nothing in the rule table, and the program raises
    a speed violation. *)
Lemma thresholds_are_not_configurable :
  let cfg := RuleEngineSpec.Build_Config 100 15 15 in
  let t := TelemetryRecord.mk "0" VIN1 (num 90) (num 50) (num 50) JUndefined
             (JStr "Running") 0 in
  map event <$> (generateAlerts example_runtime t init).1 ≠
    Some (RuleEngineSpec.evaluate example_runtime cfg t).
Proof. vm_compute. discriminate. Qed.

(** ** Distance *)

(** C8, as the program has it: no distance is computed.  Ingestion
    takes speed, fuel level, battery level, location and engine status
    from the body and nothing else, so two bodies that agree on these
    five, whatever odometer values they carry, are answered alike and
    leave the same storage; and no route answers under
    [/api/analytics]: every such request, whatever its method, query
    and body, gets "Route not found" and writes nothing. *)
Theorem odometer_is_not_stored rt :
  (∀ w vin b b',
     Forall (λ k, get_prop b k = get_prop b' k) ingested_fields →
     app rt (POST_telemetry vin b) w = app rt (POST_telemetry vin b') w) ∧
  (∀ m rest q b w,
     app rt (mkRequest m ("api" :: "analytics" :: rest) q b) w =
       (not_found "Route not found", w)).
Proof.
  split.
  - intros w vin b b' Hfields.
    apply Forall_cons in Hfields as [Hspeed Hfields].
    apply Forall_cons in Hfields as [Hfuel Hfields].
    apply Forall_cons in Hfields as [Hbattery Hfields].
    apply Forall_cons in Hfields as [Hlocation Hfields].
    apply Forall_cons in Hfields as [Hstatus _].
    unfold POST_telemetry.
    destruct (decide (vin = "")) as [->|Hne]; [reflexivity|].
    rewrite !app_post_telemetry by done. unfold post_telemetry, prop.
    cbn [body]. by rewrite Hspeed, Hfuel, Hbattery, Hlocation, Hstatus.
  - intros m rest q b w. destruct m; reflexivity.
Qed.

(** C8 fails as stated: a vehicle whose readings carry the odometer
    values 100, 150, 120, 200 and one whose readings carry 100 four
    times leave the same answers and the same storage, so nothing
    computed from them is 130 for the first and 0 for the second. *)
Lemma distance_is_not_computed :
  ¬ ∃ totalDistance : list response * World → Z,
      totalDistance
        (serve example_runtime (odometer_run [100; 150; 120; 200]%Z) init)
        = 130%Z ∧
      totalDistance
        (serve example_runtime (odometer_run [100; 100; 100; 100]%Z) init)
        = 0%Z.
Proof.
  intros (totalDistance & Hfirst & Hsecond).
  assert (serve example_runtime (odometer_run [100; 150; 120; 200]%Z) init =
          serve example_runtime (odometer_run [100; 100; 100; 100]%Z) init)
    as Hsame by (vm_compute; reflexivity).
  rewrite Hsame, Hsecond in Hfirst. discriminate Hfirst.
Qed.

(** ** Invariants of the storage *)

Lemma validated_vin data errors s :
  validateVehicleData data = Some errors → length errors = 0 →
  prop data "vin" = JStr s → String.length s = 17.
Proof.
  unfold validateVehicleData, prop. intros Hval Hlen Hvin.
  destruct (get_prop data "vin") as [vin|]; [|done]. simpl in *. subst vin.
  repeat match type of Hval with
    | context [get_prop data ?k] =>
        destruct (get_prop data k); simpl in Hval; [|done]
    end.
  injection Hval as <-. rewrite length_app in Hlen.
  destruct (negb (s =? "") && (String.length s =? 17)%nat) eqn:Hv;
    [|simpl in Hlen; lia].
  apply andb_true_iff in Hv as [_ Hv]. by apply Nat.eqb_eq in Hv.
Qed.

Lemma app_vins_validated rt req w :
  vins_validated w → vins_validated (app rt req w).2.
Proof.
  intros Hw. unfold vins_validated, known in *.
  destruct (app_routed rt req) as
    [Hm Hp|Hm Hp|vin Hm Hp Hne|vin Hm Hp Hne|vin Hm Hp Hne|vin Hm Hp Hne
    |vin Hm Hp Hne|vin Hm Hp Hne|Hm Hp|id Hm Hp Hne|id Hm Hp Hne|Hm Hp|Hd].
  all: run_handler.
  all: unfold set_telemetryData, set_vehicles, set_alerts in *; cbn in *.
  all: try done.
  all: intros k Hk; apply has_true in Hk as [x Hk].
  - apply lookup_insert_Some in Hk as [[<- _]|[_ Hk]].
    + eapply validated_vin; eauto.
    + apply Hw, has_true. eauto.
  - apply lookup_insert_Some in Hk as [[<- _]|[_ Hk]];
      apply Hw, has_true; [eauto|]. exists x. congruence.
  - apply lookup_delete_Some in Hk as [_ Hk]. apply Hw, has_true. eauto.
  - apply Hw, has_true. exists x. congruence.
  - apply Hw, has_true. exists x. congruence.
Qed.

Lemma serve_vins_validated rt reqs w :
  vins_validated w → vins_validated (serve rt reqs w).2.
Proof.
  revert w. induction reqs as [|req reqs IH]; intros w Hw; [done|].
  rewrite serve_cons. pose proof (app_vins_validated rt req w Hw) as Hstep.
  destruct (app rt req w) as [r w1]. specialize (IH w1 Hstep).
  by destruct (serve rt reqs w1).
Qed.

Lemma reachable_vins_validated rt w : reachable rt w → vins_validated w.
Proof.
  intros [reqs <-]. apply serve_vins_validated. intros vin Hvin. done.
Qed.

(** The batch route is never reached: in every reachable state a request
    to [/api/telemetry/batch] is answered by the single-vehicle handler,
    for which "batch" is a VIN nobody registered. *)
Lemma batch_route_shadowed rt w q b :
  reachable rt w →
  app rt (mkRequest POST ["api"; "telemetry"; "batch"] q b) w =
    (not_found "Vehicle not found", w).
Proof.
  intros Hw%reachable_vins_validated. unfold app, routes. cbn.
  unfold post_telemetry. run_monad.
  destruct (has (vehicles w) "batch") eqn:Hb; [|done].
  by apply Hw in Hb.
Qed.

(** Where the alerts of the ledger come from: an alert found after a
    request was there before, up to its status, or was made of a
    reading the vehicle now holds. *)
Lemma app_alerts rt req w :
  let '(r, w') := app rt req w in
  ∀ id a, alerts w' !! id = Some a →
    (∃ a0, alerts w !! id = Some a0 ∧ Alert.vin a0 = Alert.vin a ∧
           event a0 = event a) ∨
    (∃ t, known w' (TelemetryRecord.vin t) ∧
          t ∈ stored w' (TelemetryRecord.vin t) ∧ produced rt t a).
Proof.
  destruct (app_routed rt req) as
    [Hm Hp|Hm Hp|vin Hm Hp Hne|vin Hm Hp Hne|vin Hm Hp Hne|vin Hm Hp Hne
    |vin Hm Hp Hne|vin Hm Hp Hne|Hm Hp|id Hm Hp Hne|id Hm Hp Hne|Hm Hp|Hd].
  all: run_handler.
  all: unfold set_telemetryData, set_vehicles, set_alerts in *; cbn in *.
  all: intros k a Ha.
  all: try (left; exists a; split; [congruence|done]).
  all: try ((* a reading is stored, the rules are evaluated *)
    match goal with
    | H : ∀ id a, alerts _ !! id = Some a → _ ∨ produced _ _ a |- _ =>
        apply H in Ha as [Ha|Ha]
    end; [left; by exists a|right];
    eexists; split; [|split; [|exact Ha]]; unfold known, stored; simpl;
    match goal with
    | H1 : vehicles ?w1 = _, H2 : telemetryData ?w1 = _ |- _ =>
        rewrite ?H1, ?H2
    end;
    [ by destruct (has (vehicles w) vin)
    | rewrite pushed_lookup; set_solver ]).
  (* alert status *)
  left. apply lookup_insert_Some in Ha as [[<- <-]|[_ Ha]]; eauto.
Qed.

Lemma produced_same_event rt t a0 a :
  Alert.vin a0 = Alert.vin a → event a0 = event a →
  produced rt t a0 → produced rt t a.
Proof. unfold produced. intros <- <-. done. Qed.

Lemma app_grounded rt req w :
  deletion req = false → grounded rt w → grounded rt (app rt req w).2.
Proof.
  intros Hdel Hw id a Ha.
  pose proof (app_alerts rt req w) as Halerts.
  pose proof (λ v Hv, app_stored rt req w v Hv (deletion_deletes v req Hdel))
    as Hstored.
  destruct (app rt req w) as [r w']. simpl in Ha.
  destruct (Halerts id a Ha) as [(a0 & Ha0 & Hvin & Hev)|(t & Hv & Ht & Hp)].
  - destruct (Hw id a0 Ha0) as (Hv & t & Ht & Hp).
    destruct (Hstored _ Hv) as (Hv' & unreported & Hperm & _).
    rewrite <- Hvin. split; [done|]. exists t. split.
    + rewrite Hperm. set_solver.
    + by eapply produced_same_event.
  - destruct Hp as [Hvin Hrule]. rewrite Hvin. split; [done|].
    exists t. by split.
Qed.

Lemma serve_grounded rt reqs w :
  Forall (λ req, deletion req = false) reqs →
  grounded rt w → grounded rt (serve rt reqs w).2.
Proof.
  intros Hreqs. revert w.
  induction Hreqs as [|req reqs Hreq Hreqs IH]; intros w Hw; [done|].
  rewrite serve_cons. pose proof (app_grounded rt req w Hreq Hw) as Hstep.
  destruct (app rt req w) as [r w1]. specialize (IH w1 Hstep).
  by destruct (serve rt reqs w1).
Qed.

(** C9, as the program has it: in every state reached by requests none of
    which deletes a vehicle (registrations, ingestion, history and latest
    queries, alert status updates), every alert of the ledger names a
    vehicle that holds a reading which produced it. *)
Theorem no_orphans_without_deletion rt reqs :
  Forall (λ req, deletion req = false) reqs →
  no_orphans rt (serve rt reqs init).2.
Proof.
  intros Hreqs id a Ha.
  assert (grounded rt init) as Hinit by (intros ? ? ?; done).
  destruct (serve_grounded rt reqs init Hreqs Hinit id a Ha) as [_ Ht]. done.
Qed.

(** C9 fails as stated: a vehicle is registered, a reading at speed 90
    raises a speed violation, the vehicle is deleted; the alert stays in
    the ledger and names a vehicle that holds no reading. *)
Lemma orphan_alert_after_deletion :
  ¬ no_orphans example_runtime (serve example_runtime deletion_scenario init).2.
Proof.
  intros Horphans.
  destruct (Horphans "1"
              (Alert.mk "1" VIN1 SpeedViolation
                 (ExceededSpeedLimit VIN1 (num 90)) High 3000 (JStr "Active")))
    as (t & Ht & _); [by vm_compute|].
  vm_compute in Ht. by apply elem_of_nil in Ht.
Qed.

(** ** Batch ingestion *)

(** C5, on the program: three records are posted to the batch route, the
    second for an unregistered vehicle.  The request is answered by the
    single-vehicle route, registered earlier, with "Vehicle not found",
    and nothing is stored.  The batch handler, had the request reached
    it, reports success, failure, success, stores one reading for each
    of the two known vehicles and returns their two alerts. *)
Theorem batch_request_is_not_found :
  let w := (serve example_runtime two_vehicles init).2 in
  app example_runtime batch_of_three w = (not_found "Vehicle not found", w) ∧
  ∃ t1 t3 a1 a3 w',
    post_telemetry_batch example_runtime [] batch_of_three w =
      (Respond 201
         (BatchData
            [ BatchOk VIN1 t1;
              BatchFail (JStr "9XXXX00000X000000") "Vehicle not found";
              BatchOk VIN2 t3 ]
            2 [a1; a3]), w') ∧
    stored w' VIN1 = [t1] ∧ stored w' VIN2 = [t3] ∧
    Alert.vin a1 = VIN1 ∧ event a1 = (SpeedViolation, High) ∧
    Alert.vin a3 = VIN2 ∧ event a3 = (LowFuel, Medium).
Proof.
  split; [by vm_compute|].
  vm_compute. eexists _, _, _, _, _. repeat split.
Qed.

(** ** Worked instances *)

Lemma witness_history_newest_first :
  let R60 := TelemetryRecord.mk "0" VIN1 (num 60) (num 50) (num 50)
               JUndefined (JStr "Running") 4000 in
  let R70 := TelemetryRecord.mk "3" VIN1 (num 70) (num 50) (num 50)
               JUndefined (JStr "Running") 7000 in
  let Rx := TelemetryRecord.mk "4" VIN1 unconvertible (num 50) (num 50)
              JUndefined (JStr "Running") 8000 in
  let w := (serve example_runtime two_vehicles init).2 in
  let run := serve example_runtime thrown_ingestion w in
  (let '(rs, w') := serve example_runtime thrown_ingestion w in
   ∃ sorted unreported,
     sorted ≡ₚ stored w' VIN1 ∧
     sorted ≡ₚ stored w VIN1 ++ appended VIN1 rs ++ unreported ∧
     (Forall (λ r, r ≠ Respond 500 InternalError) rs → unreported = []) ∧
     non_increasing sorted ∧
     (app example_runtime (GET_telemetry VIN1 []) w').1 =
       Respond 200 (HistoryData sorted (length sorted)) ∧
     (∀ offset limit : nat,
        (app example_runtime
           (GET_telemetry VIN1 [("offset", pretty offset);
                                ("limit", pretty limit)]) w').1 =
          Respond 200
            (HistoryData (take limit (drop offset sorted)) (length sorted))) ∧
     ∀ q offset limit,
       reads (assoc "offset" q) offset → reads (assoc "limit" q) limit →
       (app example_runtime (GET_telemetry VIN1 q) w').1 =
         Respond 200
           (HistoryData (cap limit (skip offset sorted)) (length sorted)) ∧
       non_increasing (cap limit (skip offset sorted))) ∧
  stored w VIN1 = [] ∧ appended VIN1 run.1 = [R60; R70] ∧
  last run.1 = Some (Respond 500 InternalError) ∧
  (app example_runtime (GET_telemetry VIN1 []) run.2).1 =
    Respond 200 (HistoryData [Rx; R70; R60] 3) ∧
  (app example_runtime
     (GET_telemetry VIN1 [("offset", "1"); ("limit", "1")]) run.2).1 =
    Respond 200 (HistoryData [R70] 3) ∧
  (app example_runtime (GET_telemetry VIN1 [("limit", "2")]) run.2).1 =
    Respond 200 (HistoryData [Rx; R70] 3).
Proof.
  intros R60 R70 Rx w run. split; [|by vm_compute].
  apply (history_newest_first example_runtime w VIN1 thrown_ingestion).
  - by vm_compute.
  - discriminate.
  - repeat constructor.
Defined.

Lemma witness_history_reorders_storage :
  let R1 := TelemetryRecord.mk "0" VIN1 (num 60) (num 50) (num 50) JUndefined
              (JStr "Running") 2000 in
  let Rn := TelemetryRecord.mk "1" VIN1 (num 70) (num 50) (num 50) JUndefined
              (JStr "Running") 3000 in
  let w := (serve example_runtime two_readings init).2 in
  let w1 := (app example_runtime (GET_telemetry VIN1 []) w).2 in
  telemetryData w1 !! VIN1 = Some (js_sort newest_first [R1; Rn]) ∧
  non_increasing (js_sort newest_first [R1; Rn]) ∧
  ∃ r,
    app example_runtime (GET_telemetry_latest VIN1) w1 =
      (Respond 200 (LatestData r), w1) ∧
    r ∈ [R1; Rn] ∧
    TelemetryRecord.timestamp r = TelemetryRecord.timestamp R1 ∧
    r ≠ Rn ∧
    (StronglySorted
       (λ a b, (TelemetryRecord.timestamp a < TelemetryRecord.timestamp b)%Z)
       [R1; Rn] → r = R1).
Proof.
  intros R1 Rn w.
  apply (history_reorders_storage example_runtime w VIN1 [R1; Rn] R1 Rn []).
  - by vm_compute.
  - discriminate.
  - by vm_compute.
  - repeat constructor. simpl. lia.
  - reflexivity.
  - reflexivity.
  - simpl. lia.
Defined.

Lemma witness_update_status :
  let w := (serve example_runtime alert_scenario init).2 in
  let alert := Alert.mk "1" VIN1 SpeedViolation
                 (ExceededSpeedLimit VIN1 (num 90)) High 3000
                 (JStr "Acknowledged") in
  app example_runtime (PUT_alert "1" (JStr "Active")) w =
    (Respond 200 (AlertData (Alert.with_status alert (JStr "Active"))),
     set_alerts (insert "1" (Alert.with_status alert (JStr "Active"))) w) ∧
  app example_runtime (PUT_alert "7" (JStr "Resolved")) w =
    (not_found "Alert not found", w).
Proof.
  intros w alert. split.
  - apply (proj2 (update_status example_runtime w "1" [] ltac:(discriminate))).
    + by vm_compute.
    + discriminate.
  - apply (proj1 (update_status example_runtime w "7" [] ltac:(discriminate))).
    by vm_compute.
Defined.

Lemma witness_no_orphans_without_deletion :
  no_orphans example_runtime (serve example_runtime alert_scenario init).2.
Proof.
  apply (no_orphans_without_deletion example_runtime alert_scenario).
  repeat constructor.
Defined.

(** * Further properties of the program *)

(** ** Identifiers, clock readings and the ledger *)

(** The alerts inserted into the ledger of the goal, in order. *)
Ltac exists_recorded :=
  first
    [ match goal with
      | |- context [<[_:=?a3]> (<[_:=?a2]> (<[_:=?a1]> (alerts _)))] =>
          exists [a1; a2; a3]
      end
    | match goal with
      | |- context [<[_:=?a2]> (<[_:=?a1]> (alerts _))] => exists [a1; a2]
      end
    | match goal with
      | |- context [<[_:=?a1]> (alerts _)] => exists [a1]
      end
    | exists [] ].

(** The alerts [generateAlerts] records, in order: the list it returns,
    or what the rules before the throwing comparison recorded. *)
Lemma generateAlerts_ledger rt t w :
  let '(result, w') := generateAlerts rt t w in
  ∃ recorded,
    (∀ generated, result = Some generated → generated = recorded) ∧
    uuids w' = (uuids w + length recorded)%nat ∧
    dates w' = (dates w + length recorded)%nat ∧
    alerts w' = foldl (λ m a, <[Alert.id a:=a]> m) (alerts w) recorded ∧
    ∀ i a, recorded !! i = Some a →
      Alert.id a = uuid rt (uuids w + i) ∧
      Alert.timestamp a = clock rt (dates w + i) ∧
      Alert.status a = JStr "Active" ∧
      Alert.vin a = TelemetryRecord.vin t.
Proof.
  unfold generateAlerts.
  destruct (speed_violation rt t) as [[]|];
    [| |by run_monad; exists []; repeat split; (lia || done)].
  all: destruct (low_fuel rt t) as [[]|].
  all: try destruct (low_battery rt t) as [[]|].
  all: run_monad.
  all: exists_recorded.
  all: split; [by intros generated [= <-]|].
  all: split; [simpl; lia|]; split; [simpl; lia|]; split; [done|].
  all: intros [|[|[|i]]] a; simpl; intros [= <-]; simpl.
  all: rewrite ?Nat.add_0_r, ?Nat.add_1_r; repeat split; f_equal; lia.
Qed.

Lemma Vehicle_update_detail rt v updates w :
  let '(v', w') := Vehicle_update rt v updates w in
  Vehicle.vin v' = Vehicle.vin v ∧
  Vehicle.updatedAt v' = JDate (clock rt (dates w)) ∧
  dates w' = S (dates w) ∧ uuids w' = uuids w.
Proof.
  unfold Vehicle_update. run_monad. split; [|done].
  induction updates as [|[k x] updates IH] using rev_ind; [done|].
  rewrite foldl_app. simpl. rewrite <- IH.
  generalize (foldl (λ v kx, assign v kx.1 kx.2) v updates). intros [].
  unfold assign. by repeat case_match.
Qed.

(** What the ledger holds after alerts were recorded. *)
Lemma lookup_recorded (m : gmap string Alert.t) generated k a :
  foldl (λ m a, <[Alert.id a:=a]> m) m generated !! k = Some a →
  m !! k = Some a ∨ (a ∈ generated ∧ Alert.id a = k).
Proof.
  revert m. induction generated as [|b generated IH]; intros m; simpl; [auto|].
  intros [Hold|[Hin Hid]]%IH.
  - apply lookup_insert_Some in Hold as [[<- <-]|[_ Hold]]; [right|auto].
    split; [set_solver|done].
  - right. split; [set_solver|done].
Qed.

(** Keep a finished call and add everything known about its result. *)
Ltac use_results :=
  repeat match goal with
    | H : generateAlerts ?rt ?t ?w = (_, _) |- _ =>
        let Hg := fresh "Hgen" in
        let Hl := fresh "Hled" in
        pose proof (generateAlerts_storage rt t w) as Hg;
        pose proof (generateAlerts_ledger rt t w) as Hl;
        rewrite H in Hg, Hl;
        destruct Hg as (? & ? & ? & ? & ?);
        destruct Hl as (? & ? & ? & ? & ? & ?);
        clear H
    | H : Vehicle_update ?rt ?v ?u ?w = (_, _) |- _ =>
        let Hu := fresh "Hupd" in
        let Hd := fresh "Hdet" in
        pose proof (Vehicle_update_storage rt v u w) as Hu;
        pose proof (Vehicle_update_detail rt v u w) as Hd;
        rewrite H in Hu, Hd;
        destruct Hu as (? & ? & ?); destruct Hd as (? & ? & ? & ?);
        clear H
    end.

Ltac run_handler_fully :=
  unfold create_vehicle, listing, get_vehicle, update_vehicle,
    delete_vehicle, post_telemetry, get_telemetry, get_telemetry_latest,
    get_alert, update_alert, health, route_not_found, not_found; run_monad;
  repeat case_match; use_results; simplify_eq; cbn in *.

Lemma consistent_bounds rt w w' :
  (dates w ≤ dates w')%nat → (uuids w ≤ uuids w')%nat →
  vehicles w' = vehicles w → telemetryData w' = telemetryData w →
  alerts w' = alerts w →
  consistent rt w → consistent rt w'.
Proof.
  intros Hd Hu Hv Ht Ha (HA & HB & HC & HD). unfold consistent.
  rewrite Hv, Ht, Ha. split; [done|]. split; [done|]. split.
  - intros k records t Hk Hin. destruct (HC k records t Hk Hin) as (? & i & ? & ?).
    split; [done|]. exists i. split; [lia|done].
  - intros k a Hk. destruct (HD k a Hk) as (? & i & ? & ?).
    split; [done|]. exists i. split; [lia|done].
Qed.

(** The storage after the array of [vin] was sorted where it lies. *)
Ltac sorted_in_place w vin HB :=
  split; [done|]; split; [|split; [|done]];
  [ intros k; destruct (decide (vin = k)) as [<-|];
    [ rewrite lookup_alter_eq, <- HB; destruct (telemetryData w !! vin);
      simpl; split; (intros [??]; done || eauto)
    | by rewrite lookup_alter_ne ]
  | let Hk := fresh "Hk" in
    let Hin := fresh "Hin" in
    let Htd := fresh "Htd" in
    intros k records t Hk Hin; destruct (decide (vin = k)) as [<-|];
    [ rewrite lookup_alter_eq in Hk;
      destruct (telemetryData w !! vin) as [records0|] eqn:Htd; [|done];
      simpl in Hk; injection Hk as <-;
      rewrite js_sort_Permutation in Hin; eauto
    | rewrite lookup_alter_ne in Hk by done; eauto ] ].

(** The storage after a reading was pushed for [vin] and alerts were
    recorded. *)
Ltac pushed_and_recorded w vin HB HC HD :=
  let Htd := fresh "Htd" in
  let records0 := fresh "records0" in
  assert (has (telemetryData w) vin = true) as Htd
    by (apply has_true, HB, has_true; by destruct (has (vehicles w) vin));
  rewrite Htd; simpl; apply has_true in Htd as [records0 Htd];
  split; [done|]; split; [|split];
  [ intros k; destruct (decide (vin = k)) as [<-|];
    [ rewrite lookup_alter_eq, Htd, <- HB, Htd; simpl; split; eauto
    | by rewrite lookup_alter_ne ]
  | let Hk := fresh "Hk" in
    let Hin := fresh "Hin" in
    intros k records t Hk Hin; destruct (decide (vin = k)) as [<-|];
    [ rewrite lookup_alter_eq, Htd in Hk; simpl in Hk; injection Hk as <-;
      apply elem_of_app in Hin as [Hin|Hin%list_elem_of_singleton];
      [ destruct (HC _ _ _ Htd Hin) as (? & i & ? & ?);
        split; [done|]; exists i; split; [lia|done]
      | subst t; split; [done|]; exists (dates w); split; [lia|done] ]
    | rewrite lookup_alter_ne in Hk by done;
      destruct (HC _ _ _ Hk Hin) as (? & i & ? & ?);
      split; [done|]; exists i; split; [lia|done] ]
  | let Hold := fresh "Hold" in
    let Hin := fresh "Hin" in
    let Hid := fresh "Hid" in
    let Hi := fresh "Hi" in
    intros k a [Hold|[Hin Hid]]%lookup_recorded;
    [ destruct (HD _ _ Hold) as (? & i & ? & ?);
      split; [done|]; exists i; split; [lia|done]
    | split; [done|]; apply list_elem_of_lookup in Hin as [i Hi];
      pose proof (lookup_lt_Some _ _ _ Hi);
      match goal with
      | Hrec : ∀ i a, _ !! i = Some a → Alert.id a = _ ∧ _ |- _ =>
          destruct (Hrec i a Hi) as (? & _)
      end;
      exists (S (uuids w + i)); split; [lia|congruence] ] ].

Lemma app_consistent rt req w :
  consistent rt w → consistent rt (app rt req w).2.
Proof.
  intros Hw.
  destruct (app_routed rt req) as
    [Hm Hp|Hm Hp|vin Hm Hp Hne|vin Hm Hp Hne|vin Hm Hp Hne|vin Hm Hp Hne
    |vin Hm Hp Hne|vin Hm Hp Hne|Hm Hp|id Hm Hp Hne|id Hm Hp Hne|Hm Hp|Hd].
  all: run_handler_fully.
  all: try done.
  all: try (eapply consistent_bounds; [| | | | |exact Hw]; simpl; (lia || done)).
  all: destruct Hw as (HA & HB & HC & HD).
  all: try (destruct w0 as [vs0 td0 al0 d0 u0]; simpl in *; subst).
  all: unfold consistent, set_telemetryData, set_vehicles, set_alerts; simpl.
  - (* registration *)
    split; [|split; [|split]].
    + intros k v [[<- <-]|[_ Hk]]%lookup_insert_Some; [done|eauto].
    + intros k. rewrite !lookup_insert_is_Some, HB. tauto.
    + intros k records t [[<- <-]|[_ Hk]]%lookup_insert_Some Hin;
        [by apply elem_of_nil in Hin|].
      destruct (HC _ _ _ Hk Hin) as (? & i & ? & ?).
      split; [done|]. exists i. split; [lia|done].
    + done.
  - (* update *)
    split; [|split; [|split]].
    + intros k v [[<- <-]|[_ Hk]]%lookup_insert_Some; [|eauto].
      etrans; [eassumption|]. eauto.
    + intros k. rewrite lookup_insert_is_Some, HB.
      destruct (decide (vin = k)) as [<-|]; [|tauto].
      split; [auto|]. intros _. eauto.
    + intros k records t' Hk Hin.
      destruct (HC _ _ _ Hk Hin) as (? & i & ? & ?).
      split; [done|]. exists i. split; [lia|done].
    + done.
  - (* deletion *)
    split; [|split; [|split]].
    + intros k v [_ Hk]%lookup_delete_Some. eauto.
    + intros k. destruct (decide (vin = k)) as [<-|].
      * rewrite !lookup_delete_eq. split; by intros [].
      * by rewrite !lookup_delete_ne.
    + intros k records t [_ Hk]%lookup_delete_Some Hin. eauto.
    + done.
  - (* ingestion, answered *)
    pushed_and_recorded w vin HB HC HD.
  - (* ingestion, a comparison throws *)
    pushed_and_recorded w vin HB HC HD.
  - (* history, with and without limit and offset *)
    sorted_in_place w vin HB.
  - sorted_in_place w vin HB.
  - sorted_in_place w vin HB.
  - sorted_in_place w vin HB.
  - (* alert status *)
    split; [done|]. split; [done|]. split; [done|].
    intros k a [[<- <-]|[_ Hk]]%lookup_insert_Some; [|eauto].
    simpl. eauto.
Qed.

Lemma serve_consistent rt reqs w :
  consistent rt w → consistent rt (serve rt reqs w).2.
Proof.
  revert w. induction reqs as [|req reqs IH]; intros w Hw; [done|].
  rewrite serve_cons. pose proof (app_consistent rt req w Hw) as Hstep.
  destruct (app rt req w) as [r w1]. specialize (IH w1 Hstep).
  by destruct (serve rt reqs w1).
Qed.

Lemma init_consistent rt : consistent rt init.
Proof. repeat split; intros; simpl in *; (done || by destruct H). Qed.

Lemma reachable_consistent rt reqs : consistent rt (serve rt reqs init).2.
Proof. apply serve_consistent, init_consistent. Qed.

(** ** The vehicle registry *)

(** X1: in every state the program reaches, a vehicle is stored under its
    own VIN, and that VIN has seventeen characters. *)
Theorem registry_keys rt reqs :
  let w := (serve rt reqs init).2 in
  ∀ k v, vehicles w !! k = Some v →
    Vehicle.vin v = k ∧ String.length k = 17.
Proof.
  intros w k v Hk.
  destruct (reachable_consistent rt reqs) as (HA & _). split; [by apply HA|].
  apply (serve_vins_validated rt reqs init); [by intros ? ?|].
  apply has_true. by exists v.
Qed.

(** X2: in every state the program reaches, the telemetry map has an
    array exactly for the registered vehicles, and every reading in the
    array of a vehicle carries that vehicle's VIN. *)
Theorem telemetry_entries rt reqs :
  let w := (serve rt reqs init).2 in
  (∀ k, is_Some (telemetryData w !! k) ↔ known w k) ∧
  (∀ k records t, telemetryData w !! k = Some records → t ∈ records →
     TelemetryRecord.vin t = k).
Proof.
  intros w. destruct (reachable_consistent rt reqs) as (_ & HB & HC & _).
  split.
  - intros k. unfold known. by rewrite has_true.
  - intros k records t Hk Hin. by destruct (HC k records t Hk Hin).
Qed.

Lemma get_prop_prop data k :
  get_prop data k = None ∧ (data = JNull ∨ data = JUndefined) ∨
  get_prop data k = Some (prop data k) ∧ data ≠ JNull ∧ data ≠ JUndefined.
Proof. unfold prop. destruct data; simpl; auto. Qed.

Lemma validateVehicleData_errors data errors :
  validateVehicleData data = Some errors →
  errors =
    (if validateVIN (prop data "vin") then []
     else ["VIN must be a 17-character string"])
    ++ required_string (prop data "manufacturer")
         "Manufacturer is required and must be a string"
    ++ required_string (prop data "model")
         "Model is required and must be a string"
    ++ required_string (prop data "fleetId")
         "Fleet ID is required and must be a string"
    ++ required_string (prop data "owner")
         "Owner is required and must be a string"
    ++ (if truthy (prop data "registrationStatus")
           && negb (includes registration_statuses
                      (prop data "registrationStatus"))
        then ["Registration status must be Active, Maintenance, or Decommissioned"]
        else []).
Proof.
  unfold validateVehicleData, prop. destruct data; simpl; try done.
  all: by intros [= <-].
Qed.

Lemma validateVehicleData_some data :
  data ≠ JNull → data ≠ JUndefined →
  ∃ errors, validateVehicleData data = Some errors.
Proof. unfold validateVehicleData. destruct data; simpl; eauto; done. Qed.

Lemma required_string_nil v error :
  required_string v error = [] ↔ ∃ s, v = JStr s ∧ s ≠ "".
Proof.
  unfold required_string. destruct v as [| |b|n|s| | |]; simpl;
    try (split; [done|by intros (? & ? & ?)]).
  - rewrite orb_true_r. split; [done|by intros (? & ? & ?)].
  - destruct n as [q| | |]; simpl; rewrite ?orb_true_r;
      (split; [done|by intros (? & ? & ?)]).
  - rewrite orb_false_r, negb_involutive.
    destruct (String.eqb_spec s ""); split; try done.
    + by intros (? & [= <-] & ?).
    + eauto.
Qed.

(** X3: a registration body passes validation exactly when its VIN is a
    text of seventeen characters, manufacturer, model, fleet and owner
    are non-empty texts, and the registration status is falsy (missing,
    [null], empty, zero, [false]) or one of Active, Maintenance and
    Decommissioned. *)
Theorem validation_passes data :
  validateVehicleData data = Some [] ↔
  (∃ vin, prop data "vin" = JStr vin ∧ String.length vin = 17) ∧
  (∃ s, prop data "manufacturer" = JStr s ∧ s ≠ "") ∧
  (∃ s, prop data "model" = JStr s ∧ s ≠ "") ∧
  (∃ s, prop data "fleetId" = JStr s ∧ s ≠ "") ∧
  (∃ s, prop data "owner" = JStr s ∧ s ≠ "") ∧
  (truthy (prop data "registrationStatus") = false ∨
   ∃ s, prop data "registrationStatus" = JStr s ∧
        s ∈ ["Active"; "Maintenance"; "Decommissioned"]).
Proof.
  assert (∀ v, validateVIN v = true ↔ ∃ vin, v = JStr vin ∧ String.length vin = 17)
    as Hvin.
  { intros v. unfold validateVIN. destruct v; try (split; [done|by intros (? & ? & ?)]).
    split.
    - intros [_ Hlen%Nat.eqb_eq]%andb_true_iff. eauto.
    - intros (vin & [= <-] & Hlen). simpl. rewrite Hlen. simpl.
      destruct s; [done|]. done. }
  assert (∀ v, truthy v && negb (includes registration_statuses v) = false ↔
               truthy v = false ∨
               ∃ s, v = JStr s ∧ s ∈ ["Active"; "Maintenance"; "Decommissioned"])
    as Hstatus.
  { intros v. destruct (truthy v) eqn:Ht; simpl.
    - split.
      + intros Hin%negb_false_iff. right. unfold includes in Hin.
        destruct v; try done. exists s. split; [done|].
        simpl in Hin. rewrite !orb_true_iff, !String.eqb_eq in Hin.
        set_solver.
      + intros [|(s & -> & Hin)]; [done|]. apply negb_false_iff. simpl.
        rewrite !orb_true_iff, !String.eqb_eq. set_solver.
    - split; auto. }
  split.
  - intros Hval. apply validateVehicleData_errors in Hval.
    symmetry in Hval.
    repeat (apply app_eq_nil in Hval as [? Hval]).
    rewrite <- Hvin, <- !required_string_nil, <- Hstatus.
    repeat split; try done.
    + by destruct (validateVIN _).
    + by destruct (truthy _ && _).
  - intros (Hv & Hm & Hmo & Hf & Ho & Hs).
    destruct Hv as (vin & Hv & Hlen).
    destruct (validateVehicleData_some data) as [errors Herr].
    { intros ->. done. } { intros ->. done. }
    rewrite Herr. f_equal. apply validateVehicleData_errors in Herr as ->.
    rewrite (proj2 (required_string_nil _ _) Hm),
      (proj2 (required_string_nil _ _) Hmo),
      (proj2 (required_string_nil _ _) Hf),
      (proj2 (required_string_nil _ _) Ho), (proj2 (Hstatus _) Hs).
    assert (validateVIN (prop data "vin") = true) as -> by (apply Hvin; eauto).
    done.
Qed.

Section VehicleRoutes.
Context (rt : Runtime).

Lemma app_create_vehicle q b :
  app rt (mkRequest POST ["api"; "vehicles"] q b) =
    create_vehicle rt [] (mkRequest POST ["api"; "vehicles"] q b).
Proof. reflexivity. Qed.

Lemma app_get_vehicle vin q b :
  vin ≠ "" →
  app rt (mkRequest GET ["api"; "vehicles"; vin] q b) =
    get_vehicle [("vin", vin)] (mkRequest GET ["api"; "vehicles"; vin] q b).
Proof.
  intros Hne%String.eqb_neq. unfold app, routes. cbn. by rewrite Hne.
Qed.

Lemma app_update_vehicle vin q b :
  vin ≠ "" →
  app rt (mkRequest PUT ["api"; "vehicles"; vin] q b) =
    update_vehicle rt [("vin", vin)]
      (mkRequest PUT ["api"; "vehicles"; vin] q b).
Proof.
  intros Hne%String.eqb_neq. unfold app, routes. cbn. by rewrite Hne.
Qed.

Lemma app_delete_vehicle vin q b :
  vin ≠ "" →
  app rt (mkRequest DELETE ["api"; "vehicles"; vin] q b) =
    delete_vehicle [("vin", vin)]
      (mkRequest DELETE ["api"; "vehicles"; vin] q b).
Proof.
  intros Hne%String.eqb_neq. unfold app, routes. cbn. by rewrite Hne.
Qed.
End VehicleRoutes.

(** X4: registering a valid body for an unknown VIN answers 201 with the
    vehicle built from the body (a missing status reads Active, the two
    dates are the next two clock readings); the vehicle can then be
    fetched, its history is empty with total 0, its latest reading is
    reported as not found, and the other vehicles are as before. *)
Theorem register_then_fetch rt w b vin :
  validateVehicleData b = Some [] → prop b "vin" = JStr vin →
  has (vehicles w) vin = false →
  let vehicle :=
    Vehicle.mk vin (prop b "manufacturer") (prop b "model")
      (prop b "fleetId") (prop b "owner")
      (or_default (prop b "registrationStatus") (JStr "Active"))
      (JDate (clock rt (dates w))) (JDate (clock rt (S (dates w)))) in
  let '(r, w1) := app rt (POST_vehicles b) w in
  r = Respond 201 (VehicleData vehicle) ∧
  app rt (GET_vehicle vin) w1 = (Respond 200 (VehicleData vehicle), w1) ∧
  (app rt (GET_telemetry vin []) w1).1 = Respond 200 (HistoryData [] 0) ∧
  app rt (GET_telemetry_latest vin) w1 =
    (not_found "No telemetry data found for this vehicle", w1) ∧
  (∀ k, k ≠ vin → vehicles w1 !! k = vehicles w !! k ∧
                  telemetryData w1 !! k = telemetryData w !! k) ∧
  alerts w1 = alerts w.
Proof.
  intros Hval Hvin Hnew vehicle.
  assert (vin ≠ "") as Hne.
  { pose proof (validated_vin b [] vin Hval eq_refl Hvin). by intros ->. }
  set (w1 :=
    set_telemetryData (insert vin [])
      (set_vehicles (insert vin vehicle)
         (mkWorld (vehicles w) (telemetryData w) (alerts w)
            (S (S (dates w))) (uuids w)))).
  assert (app rt (POST_vehicles b) w = (Respond 201 (VehicleData vehicle), w1))
    as ->.
  { unfold POST_vehicles. rewrite app_create_vehicle.
    unfold create_vehicle. run_monad. rewrite Hval. simpl. rewrite Hvin.
    rewrite Hnew. unfold new_Vehicle. by run_monad. }
  assert (known w1 vin) as Hknown.
  { unfold known, w1. simpl. apply has_true. rewrite lookup_insert_eq. eauto. }
  assert (stored w1 vin = []) as Hstored.
  { unfold stored, w1. simpl. by rewrite lookup_insert_eq. }
  split; [done|]. split; [|split; [|split; [|split; [|done]]]].
  - unfold GET_vehicle. rewrite app_get_vehicle by done.
    unfold get_vehicle. run_monad. unfold w1. simpl.
    by rewrite lookup_insert_eq.
  - unfold GET_telemetry. rewrite app_get_telemetry by done.
    rewrite (get_telemetry_known w1 vin [] _ None None) by done.
    by rewrite Hstored.
  - unfold GET_telemetry_latest. rewrite app_get_telemetry_latest by done.
    rewrite get_telemetry_latest_known by done. by rewrite Hstored.
  - intros k Hk. unfold w1. simpl. by rewrite !lookup_insert_ne.
Qed.

(** X5: a registration that fails validation is answered 400 with the
    list of errors, and a valid registration for a VIN already known is
    answered 409; in both cases the storage is left as it was, so a known
    vehicle is never overwritten by a registration. *)
Theorem registration_rejected rt w b :
  (∀ errors, validateVehicleData b = Some errors → errors ≠ [] →
     app rt (POST_vehicles b) w = (Respond 400 (Errors errors), w)) ∧
  (∀ vin, validateVehicleData b = Some [] → prop b "vin" = JStr vin →
     known w vin →
     app rt (POST_vehicles b) w =
       (Respond 409 (Failure "Vehicle with this VIN already exists"), w)).
Proof.
  unfold POST_vehicles. rewrite app_create_vehicle.
  unfold create_vehicle. run_monad. split.
  - intros errors -> Herr. by destruct errors.
  - intros vin -> -> Hknown. simpl. unfold known in Hknown. by rewrite Hknown.
Qed.

Lemma assoc_None {A} k (l : list (string * A)) : k ∉ l.*1 → assoc k l = None.
Proof.
  induction l as [|[k' x] l IH]; simpl; [done|]. intros Hk.
  apply not_elem_of_cons in Hk as [Hne Hk].
  apply String.eqb_neq in Hne as ->. auto.
Qed.

Section Assignments.
#[local] Arguments String.eqb : simpl never.

(** Decide the comparisons of a variable key with the names it is known
    to differ from, and those between two literal names. *)
Ltac other_key :=
  repeat match goal with
    | H : ?k ≠ ?n |- context [String.eqb ?n ?k] =>
        rewrite (proj2 (String.eqb_neq n k)) by (intros ?; by apply H)
    | |- context [String.eqb ?a ?b] =>
        let v := eval vm_compute in (String.eqb a b) in
        match v with
        | true => change (String.eqb a b) with true
        | false => change (String.eqb a b) with false
        end
    end.

(** What a run of assignments leaves in each property of a vehicle. *)
Lemma foldl_assign v (updates : list (string * jsval)) :
  NoDup updates.*1 →
  let v' :=
    foldl (λ v kx, assign v kx.1 kx.2) v
      (filter (λ kx, kx.1 ≠ "vin") updates) in
  Vehicle.vin v' = Vehicle.vin v ∧
  Vehicle.manufacturer v' =
    default (Vehicle.manufacturer v) (assoc "manufacturer" updates) ∧
  Vehicle.model v' = default (Vehicle.model v) (assoc "model" updates) ∧
  Vehicle.fleetId v' = default (Vehicle.fleetId v) (assoc "fleetId" updates) ∧
  Vehicle.owner v' = default (Vehicle.owner v) (assoc "owner" updates) ∧
  Vehicle.registrationStatus v' =
    default (Vehicle.registrationStatus v)
      (assoc "registrationStatus" updates) ∧
  Vehicle.createdAt v' =
    default (Vehicle.createdAt v) (assoc "createdAt" updates).
Proof.
  revert v. induction updates as [|[k x] updates IH]; intros v Hdup; [done|].
  apply NoDup_cons in Hdup as [Hk Hdup].
  pose proof (assoc_None k updates Hk) as Hnone. rewrite filter_cons. simpl.
  destruct (decide (k ≠ "vin")) as [Hvin|Hvin%dec_stable].
  - simpl. specialize (IH (assign v k x) Hdup). simpl in IH.
    destruct IH as (-> & -> & -> & -> & -> & -> & ->).
    destruct v. unfold assign.
    repeat match goal with
      | |- context [String.eqb k ?n] =>
          destruct (String.eqb_spec k n) as [->|]
      end; simpl; rewrite ?Hnone; other_key; done.
  - subst k. other_key. by apply IH.
Qed.
End Assignments.

(** X6: an update of a known vehicle answers 200 and takes the values of
    the body as they come, without validation: manufacturer, model, fleet,
    owner, registration status and creation date are each replaced when
    the body names them and kept otherwise; the VIN is kept whatever the
    body says, and the update date is the clock reading even when the
    body names one.  Telemetry and alerts are not touched. *)
Theorem update_overwrites rt w vin v updates :
  vin ≠ "" → vehicles w !! vin = Some v → NoDup updates.*1 →
  let '(r, w1) := app rt (PUT_vehicle vin (JObj updates)) w in
  ∃ v',
    r = Respond 200 (VehicleData v') ∧
    vehicles w1 = <[vin:=v']> (vehicles w) ∧
    telemetryData w1 = telemetryData w ∧ alerts w1 = alerts w ∧
    Vehicle.vin v' = Vehicle.vin v ∧
    Vehicle.manufacturer v' =
      default (Vehicle.manufacturer v) (assoc "manufacturer" updates) ∧
    Vehicle.model v' = default (Vehicle.model v) (assoc "model" updates) ∧
    Vehicle.fleetId v' = default (Vehicle.fleetId v) (assoc "fleetId" updates) ∧
    Vehicle.owner v' = default (Vehicle.owner v) (assoc "owner" updates) ∧
    Vehicle.registrationStatus v' =
      default (Vehicle.registrationStatus v)
        (assoc "registrationStatus" updates) ∧
    Vehicle.createdAt v' =
      default (Vehicle.createdAt v) (assoc "createdAt" updates) ∧
    Vehicle.updatedAt v' = JDate (clock rt (dates w)).
Proof.
  intros Hne Hv Hdup. unfold PUT_vehicle. rewrite app_update_vehicle by done.
  unfold update_vehicle. run_monad. rewrite Hv.
  unfold Vehicle_update. run_monad.
  eexists. split; [done|]. split; [done|]. split; [done|]. split; [done|].
  simpl. pose proof (foldl_assign v updates Hdup) as Hfields. simpl in Hfields.
  destruct Hfields as (? & ? & ? & ? & ? & ? & ?). done.
Qed.

(** X7: deleting a known vehicle answers 200 and removes the vehicle and
    its telemetry array, nothing else: the other vehicles and arrays and
    the whole alert ledger stay, and the VIN is unknown afterwards. *)
Theorem delete_forgets rt w vin :
  vin ≠ "" → known w vin →
  let '(r, w1) := app rt (DELETE_vehicle vin) w in
  r = Respond 200 (Message "Vehicle deleted successfully") ∧
  vehicles w1 = delete vin (vehicles w) ∧
  telemetryData w1 = delete vin (telemetryData w) ∧
  alerts w1 = alerts w ∧
  has (vehicles w1) vin = false ∧ stored w1 vin = [].
Proof.
  intros Hne Hknown. unfold DELETE_vehicle.
  rewrite app_delete_vehicle by done.
  unfold delete_vehicle. run_monad. unfold known in Hknown. rewrite Hknown.
  simpl. repeat split.
  - apply has_false, lookup_delete_eq.
  - unfold stored. simpl. by rewrite lookup_delete_eq.
Qed.

(** X8: for a VIN that is not registered, fetching, updating or deleting
    the vehicle, ingesting a reading for it and asking for its history or
    its latest reading are all answered 404 "Vehicle not found", whatever
    the body or the query, and the storage is left as it was. *)
Theorem unknown_vehicle_not_found rt w vin q b :
  vin ≠ "" → has (vehicles w) vin = false →
  app rt (mkRequest GET ["api"; "vehicles"; vin] q b) w =
    (not_found "Vehicle not found", w) ∧
  app rt (mkRequest PUT ["api"; "vehicles"; vin] q b) w =
    (not_found "Vehicle not found", w) ∧
  app rt (mkRequest DELETE ["api"; "vehicles"; vin] q b) w =
    (not_found "Vehicle not found", w) ∧
  app rt (mkRequest POST ["api"; "telemetry"; vin] q b) w =
    (not_found "Vehicle not found", w) ∧
  app rt (mkRequest GET ["api"; "telemetry"; vin] q b) w =
    (not_found "Vehicle not found", w) ∧
  app rt (mkRequest GET ["api"; "telemetry"; vin; "latest"] q b) w =
    (not_found "Vehicle not found", w).
Proof.
  intros Hne Hunknown. pose proof Hunknown as Hnone%has_false.
  rewrite app_get_vehicle, app_update_vehicle, app_delete_vehicle,
    app_post_telemetry, app_get_telemetry, app_get_telemetry_latest by done.
  unfold get_vehicle, update_vehicle, delete_vehicle, post_telemetry,
    get_telemetry, get_telemetry_latest. run_monad.
  by rewrite Hnone, Hunknown.
Qed.

(** ** Ingestion and the alert ledger *)

(** X9: ingesting a body for a known vehicle makes a reading that takes
    speed, fuel level, battery level, location and engine status from
    the body as they come (a missing one is [undefined]), the next
    identifier and the next clock reading; the reading goes to the end
    of the vehicle's array, the other arrays and the vehicles are as
    before.  The rules are evaluated after the push: when the three
    levels convert to numbers the answer is 201 with the reading and the
    alerts the rules raise on it, and when one does not the comparison
    throws and the answer is 500, with the reading stored all the
    same. *)
Theorem ingestion_stores rt w vin b :
  vin ≠ "" → known w vin → b ≠ JNull → b ≠ JUndefined →
  let t := TelemetryRecord.mk (uuid rt (uuids w)) vin (prop b "speed")
             (prop b "fuelLevel") (prop b "batteryLevel")
             (prop b "location") (prop b "engineStatus")
             (clock rt (dates w)) in
  let '(r, w1) := app rt (POST_telemetry vin b) w in
  stored w1 vin = stored w vin ++ [t] ∧
  (∀ k, k ≠ vin → telemetryData w1 !! k = telemetryData w !! k) ∧
  vehicles w1 = vehicles w ∧
  if comparable t
  then ∃ generated,
         r = Respond 201 (TelemetryData t generated) ∧
         map event generated = raised rt t
  else r = Respond 500 InternalError.
Proof.
  intros Hne Hknown Hnull Hundef t. unfold POST_telemetry.
  rewrite app_post_telemetry, post_telemetry_known by done. cbv zeta.
  fold t.
  match goal with
  | |- context [generateAlerts rt t ?w0] =>
      pose proof (generateAlerts_storage rt t w0) as Hsto;
      pose proof (generateAlerts_events rt t w0) as Hev;
      destruct (generateAlerts rt t w0) as [result w1]
  end.
  destruct Hsto as (Hv & Ht & _). unfold stored. rewrite Ht, Hv. simpl.
  split; [by rewrite pushed_lookup|].
  split; [intros k Hk; by rewrite pushed_lookup_ne|]. split; [done|].
  simpl in Hev. destruct (comparable t), result as [generated|]; try done.
  exists generated. split; [done|]. by injection Hev.
Qed.

Lemma rule_verdict (verdict : option bool) (throws : bool) :
  (verdict = None ↔ throws = true) →
  (throws = true ∧ verdict = None) ∨ (throws = false ∧ is_Some verdict).
Proof. destruct verdict, throws; naive_solver. Qed.

(** X25: [generateAlerts] evaluates the three rules in order and stops
    at the first level that does not convert.  The alerts it records in
    the ledger are those of the rules that fire before that point, in
    the order speed violation, low fuel, low battery; it returns them
    when it gets through the three rules and returns nothing when a
    comparison throws, and it writes nothing but the ledger. *)
Theorem generateAlerts_stops_at_throw rt t w :
  let '(result, w1) := generateAlerts rt t w in
  ∃ recorded,
    alerts w1 = foldl (λ m a, <[Alert.id a:=a]> m) (alerts w) recorded ∧
    vehicles w1 = vehicles w ∧ telemetryData w1 = telemetryData w ∧
    result = (if comparable t then Some recorded else None) ∧
    map event recorded =
      if ToPrimitive_throws (TelemetryRecord.speed t) then []
      else
        (if fires (speed_violation rt t) then [(SpeedViolation, High)]
         else [])
        ++ if ToPrimitive_throws (TelemetryRecord.fuelLevel t) then []
           else
             (if fires (low_fuel rt t) then [(LowFuel, Medium)] else [])
             ++ if ToPrimitive_throws (TelemetryRecord.batteryLevel t)
                then []
                else if fires (low_battery rt t)
                     then [(LowBattery, Medium)] else [].
Proof.
  unfold generateAlerts, comparable.
  destruct (rule_verdict _ _ (speed_violation_throws rt t))
    as [[-> ->]|[-> [s ->]]]; [by exists []|].
  destruct (rule_verdict _ _ (low_fuel_throws rt t))
    as [[-> ->]|[-> [f ->]]].
  { destruct s; run_monad; exists_recorded; done. }
  destruct (rule_verdict _ _ (low_battery_throws rt t))
    as [[-> ->]|[-> [b ->]]].
  { destruct s, f; run_monad; exists_recorded; done. }
  destruct s, f, b; run_monad; exists_recorded; done.
Qed.

Lemma lookup_recorded_fresh (m : gmap string Alert.t) generated :
  NoDup (Alert.id <$> generated) →
  (∀ a, a ∈ generated → m !! Alert.id a = None) →
  let m' := foldl (λ m a, <[Alert.id a:=a]> m) m generated in
  size m' = (size m + length generated)%nat ∧
  (∀ a, a ∈ generated → m' !! Alert.id a = Some a) ∧
  (∀ k x, m !! k = Some x → m' !! k = Some x).
Proof.
  revert m. induction generated as [|b generated IH]; intros m Hdup Hfresh.
  { simpl. split; [lia|]. split; [|done]. intros a Ha. by apply elem_of_nil in Ha. }
  apply NoDup_cons in Hdup as [Hb Hdup]. simpl.
  destruct (IH (<[Alert.id b:=b]> m) Hdup) as (Hsize & Hnew & Hold).
  { intros a Ha. rewrite lookup_insert_ne; [apply Hfresh; set_solver|].
    intros Heq. apply Hb. rewrite Heq. by apply list_elem_of_fmap_2. }
  simpl in *. split; [|split].
  - rewrite Hsize, map_size_insert_None; [lia|]. apply Hfresh. set_solver.
  - intros a [->|Ha]%elem_of_cons; [|by apply Hnew].
    apply Hold, lookup_insert_eq.
  - intros k x Hk. apply Hold. rewrite lookup_insert_ne; [done|].
    intros <-. rewrite Hfresh in Hk; [done|set_solver].
Qed.

(** The identifiers of freshly recorded alerts: pairwise distinct and
    not in the ledger, when the generator never repeats itself. *)
Lemma generated_fresh rt w0 w (recorded : list Alert.t) :
  (∀ i a, recorded !! i = Some a → Alert.id a = uuid rt (uuids w + i)) →
  Inj (=) (=) (uuid rt) → consistent rt w0 →
  alerts w = alerts w0 → (uuids w0 ≤ uuids w)%nat →
  NoDup (Alert.id <$> recorded) ∧
  ∀ a, a ∈ recorded → alerts w !! Alert.id a = None.
Proof.
  intros Hids Hinj (_ & _ & _ & HD) Ha Hu. split.
  - apply NoDup_alt. intros i j k Hi Hj.
    apply list_lookup_fmap_Some in Hi as (a & -> & Hi).
    apply list_lookup_fmap_Some in Hj as (b & Hab & Hj).
    rewrite (Hids i a Hi), (Hids j b Hj) in Hab. apply Hinj in Hab. lia.
  - intros a [i Hi]%list_elem_of_lookup.
    destruct (alerts w !! Alert.id a) as [x|] eqn:Hx; [|done].
    rewrite Ha in Hx. destruct (HD _ _ Hx) as (_ & j & Hj & Hid).
    rewrite (Hids i a Hi) in Hid. apply Hinj in Hid. lia.
Qed.

(** X10: when the identifier generator never repeats itself, an
    ingestion in a state the program reached puts every alert of its
    answer into the ledger under the alert's identifier, with status
    Active, next to the alerts that were there: the ledger grows by the
    number of alerts generated and no earlier alert is replaced. *)
Theorem generated_alerts_recorded rt reqs vin b :
  Inj (=) (=) (uuid rt) → vin ≠ "" →
  let w := (serve rt reqs init).2 in
  let '(r, w1) := app rt (POST_telemetry vin b) w in
  ∀ t generated, r = Respond 201 (TelemetryData t generated) →
    size (alerts w1) = (size (alerts w) + length generated)%nat ∧
    (∀ a, a ∈ generated →
       alerts w1 !! Alert.id a = Some a ∧ Alert.status a = JStr "Active" ∧
       Alert.vin a = vin) ∧
    (∀ k a, alerts w !! k = Some a → alerts w1 !! k = Some a).
Proof.
  intros Hinj Hne w. pose proof (reachable_consistent rt reqs) as Hw.
  fold w in Hw. unfold POST_telemetry. rewrite app_post_telemetry by done.
  destruct (has (vehicles w) vin) eqn:Hknown.
  2: { unfold post_telemetry. run_monad. by rewrite Hknown. }
  assert (b = JNull ∨ b = JUndefined ∨ (b ≠ JNull ∧ b ≠ JUndefined))
    as [->|[->|[Hnull Hundef]]] by (destruct b; auto).
  1,2: unfold post_telemetry; run_monad; by rewrite Hknown.
  rewrite post_telemetry_known by done. cbv zeta.
  match goal with
  | |- context [generateAlerts rt ?t ?w0] =>
      pose proof (generateAlerts_ledger rt t w0) as Hled;
      destruct (generateAlerts rt t w0) as [[generated|] w1]
  end; [|done].
  intros t ? [= <- <-].
  destruct Hled as (recorded & Hsame & _ & _ & Hal & Hids).
  rewrite <- (Hsame generated eq_refl) in *. clear Hsame.
  match type of Hids with
  | ∀ i a, _ → Alert.id a = uuid rt (uuids ?w0 + i) ∧ _ =>
      destruct (generated_fresh rt w w0 generated) as (Hdup & Hfresh);
        [intros i a Hi; by destruct (Hids i a Hi)|done|done|done|simpl; lia|]
  end.
  simpl in *.
  destruct (lookup_recorded_fresh (alerts w) generated Hdup Hfresh)
    as (Hsize & Hnew & Hold).
  rewrite Hal. split; [done|]. split; [|done].
  intros a Ha. split; [by apply Hnew|].
  apply list_elem_of_lookup in Ha as [i Hi].
  by destruct (Hids i a Hi) as (_ & _ & ? & ?).
Qed.

Lemma lookup_recorded_ne (m : gmap string Alert.t) generated k :
  (∀ a, a ∈ generated → Alert.id a ≠ k) →
  foldl (λ m a, <[Alert.id a:=a]> m) m generated !! k = m !! k.
Proof.
  revert m. induction generated as [|b generated IH]; intros m Hk; [done|].
  simpl. rewrite IH by (intros; apply Hk; set_solver).
  apply lookup_insert_ne, Hk. set_solver.
Qed.

Lemma with_status_same a : Alert.with_status a (Alert.status a) = a.
Proof. by destruct a. Qed.

(** An alert of the ledger after one more request: still there, the same
    but for its status, and the same altogether unless the request
    updates the status of that alert. *)
Lemma app_alert_kept rt req w k a :
  Inj (=) (=) (uuid rt) → consistent rt w →
  alerts w !! k = Some a →
  ∃ a', alerts (app rt req w).2 !! k = Some a' ∧
        a' = Alert.with_status a (Alert.status a') ∧
        (updates_alert k req = false → a' = a).
Proof.
  intros Hinj Hw Hk.
  assert (∃ a', alerts w !! k = Some a' ∧
                a' = Alert.with_status a (Alert.status a') ∧
                (updates_alert k req = false → a' = a)) as Hsame.
  { exists a. by rewrite with_status_same. }
  destruct (app_routed rt req) as
    [Hm Hp|Hm Hp|vin Hm Hp Hne|vin Hm Hp Hne|vin Hm Hp Hne|vin Hm Hp Hne
    |vin Hm Hp Hne|vin Hm Hp Hne|Hm Hp|id Hm Hp Hne|id Hm Hp Hne|Hm Hp|Hd].
  all: run_handler_fully.
  all: try done.
  all: try (destruct w0 as [vs0 td0 al0 d0 u0]; simpl in *; subst; done).
  1,2: (* ingestion, answered or not *)
    destruct w0 as [vs0 td0 al0 d0 u0]; simpl in *; subst;
    (rewrite lookup_recorded_ne; [done|]);
    intros b [i Hi]%list_elem_of_lookup Hid;
    destruct Hw as (_ & _ & _ & HD);
    destruct (HD _ _ Hk) as (_ & n & Hn & Hkj);
    match goal with
    | Hrec : ∀ i a, _ !! i = Some a → Alert.id a = _ ∧ _ |- _ =>
        destruct (Hrec i b Hi) as (Hib & _)
    end;
    rewrite Hib, Hkj in Hid; apply Hinj in Hid; lia.
  (* alert status *)
  destruct (decide (id = k)) as [->|Hid].
  - rewrite lookup_insert_eq. simplify_eq. eexists. split; [done|].
    split; [by destruct a|].
    unfold updates_alert. rewrite Hm, Hp.
    intros Hq. by apply bool_decide_eq_false in Hq as [].
  - by rewrite lookup_insert_ne.
Qed.

(** X11: when the identifier generator never repeats itself, an alert
    that is in the ledger stays in the ledger under the same identifier
    through every later request, vehicle deletion included, unchanged but
    for its status: alerts are neither removed nor replaced. *)
Theorem alerts_are_kept rt reqs1 reqs2 :
  Inj (=) (=) (uuid rt) →
  let w1 := (serve rt reqs1 init).2 in
  let w2 := (serve rt reqs2 w1).2 in
  ∀ k a, alerts w1 !! k = Some a →
    Alert.id a = k ∧
    ∃ a', alerts w2 !! k = Some a' ∧
          a' = Alert.with_status a (Alert.status a').
Proof.
  intros Hinj w1 w2 k a Hk.
  pose proof (reachable_consistent rt reqs1) as Hw1. fold w1 in Hw1.
  split; [by apply Hw1|].
  unfold w2. clearbody w1. clear w2. revert w1 a Hk Hw1.
  induction reqs2 as [|req reqs2 IH]; intros w1 a Hk Hw1.
  { exists a. by rewrite with_status_same. }
  rewrite serve_cons.
  destruct (app_alert_kept rt req w1 k a Hinj Hw1 Hk) as (a1 & Hk1 & Ha1 & _).
  pose proof (app_consistent rt req w1 Hw1) as Hw1'.
  destruct (app rt req w1) as [r w1']. simpl in *.
  destruct (IH w1' a1 Hk1 Hw1') as (a2 & Hk2 & Ha2).
  destruct (serve rt reqs2 w1') as [rs w2]. simpl in *.
  exists a2. split; [done|]. rewrite Ha2, Ha1. by destruct a.
Qed.

(** X12: when the identifier generator never repeats itself, in a state
    the program reached a request leaves an alert of the ledger exactly
    as it is, status included, unless it is the status update of that
    very alert. *)
Theorem status_changes_only_by_update rt reqs req k a :
  Inj (=) (=) (uuid rt) → updates_alert k req = false →
  let w := (serve rt reqs init).2 in
  alerts w !! k = Some a →
  alerts (app rt req w).2 !! k = Some a.
Proof.
  intros Hinj Hreq w Hk.
  destruct (app_alert_kept rt req w k a Hinj (reachable_consistent rt reqs) Hk)
    as (a' & Hk' & _ & Hsame).
  by rewrite Hk', Hsame.
Qed.

(** X13: the status update does not validate the status: for an alert of
    the ledger, any truthy value of the body's [status] (a text, a number,
    an object) becomes the alert's status, and a falsy one (missing,
    [null], empty text, zero, [false]) is ignored: the answer is 200 with
    the alert as it was and the storage is left as it was. *)
Theorem status_is_not_validated rt w alertId q alert fields :
  alertId ≠ "" → alerts w !! alertId = Some alert →
  let status := default JUndefined (assoc "status" fields) in
  app rt (mkRequest PUT ["api"; "alerts"; alertId] q (JObj fields)) w =
    if truthy status then
      (Respond 200 (AlertData (Alert.with_status alert status)),
       set_alerts (insert alertId (Alert.with_status alert status)) w)
    else (Respond 200 (AlertData alert), w).
Proof.
  intros Hne Halert status. rewrite app_update_alert by done.
  unfold update_alert. run_monad. rewrite Halert. cbn. fold status.
  by destruct (truthy status).
Qed.

(** ** Sorting newest first, in general *)

Section Descending.
Context {A : Type} (key : A → Z) (comparefn : A → A → Z).
Context (Hcmp : ∀ a b, comparefn a b = (key b - key a)%Z).

Lemma js_sort_cons x l :
  js_sort comparefn (x :: l) = sort_insert comparefn x (js_sort comparefn l).
Proof. reflexivity. Qed.

Lemma sort_insert_descending x l :
  StronglySorted (λ a b, (key b ≤ key a)%Z) l →
  StronglySorted (λ a b, (key b ≤ key a)%Z) (sort_insert comparefn x l).
Proof.
  induction l as [|y l IH]; simpl; intros Hl.
  - repeat constructor.
  - apply StronglySorted_inv in Hl as [Hl Hy]. rewrite Hcmp.
    destruct (Z.ltb_spec 0 (key y - key x)).
    + constructor; [by apply IH|].
      rewrite sort_insert_Permutation. constructor; [lia|done].
    + constructor; [by constructor|].
      constructor; [lia|].
      eapply Forall_impl; [exact Hy|]. simpl. intros; lia.
Qed.

Lemma js_sort_descending l :
  StronglySorted (λ a b, (key b ≤ key a)%Z) (js_sort comparefn l).
Proof.
  induction l as [|x l IH]; [constructor|].
  rewrite js_sort_cons. by apply sort_insert_descending.
Qed.

(** Sorting what is sorted changes nothing. *)
Lemma js_sort_sorted l :
  StronglySorted (λ a b, (key b ≤ key a)%Z) l → js_sort comparefn l = l.
Proof.
  induction l as [|x l IH]; [done|]. intros Hl.
  apply StronglySorted_inv in Hl as [Hl Hx].
  rewrite js_sort_cons, IH by done.
  destruct l as [|y l]; [done|]. simpl. rewrite Hcmp.
  apply Forall_cons in Hx as [Hy _].
  destruct (Z.ltb_spec 0 (key y - key x)); [lia|done].
Qed.

(** The sort is stable: the elements of one key keep their order. *)
Lemma sort_insert_stable z x l :
  filter (λ a, key a = z) (sort_insert comparefn x l) =
  filter (λ a, key a = z) (x :: l).
Proof.
  induction l as [|y l IH]; [done|]. simpl. rewrite Hcmp.
  destruct (Z.ltb_spec 0 (key y - key x)); [|done].
  rewrite !filter_cons in *. rewrite IH.
  destruct (decide (key y = z)), (decide (key x = z)); try done. lia.
Qed.

Lemma js_sort_stable z l :
  filter (λ a, key a = z) (js_sort comparefn l) = filter (λ a, key a = z) l.
Proof.
  induction l as [|x l IH]; [done|].
  rewrite js_sort_cons, sort_insert_stable, !filter_cons, IH. done.
Qed.
End Descending.

Lemma newest_first_key a b :
  newest_first a b =
    (TelemetryRecord.timestamp b - TelemetryRecord.timestamp a)%Z.
Proof. reflexivity. Qed.

(** ** History queries, further *)

(** The answer of the history handler for a known vehicle, whatever the
    query. *)
Lemma get_telemetry_answer w vin q b :
  known w vin →
  (get_telemetry [("vin", vin)] (mkRequest GET ["api"; "telemetry"; vin] q b) w).1 =
    Respond 200
      (HistoryData
         (let sorted := js_sort newest_first (stored w vin) in
          let result :=
            match given (assoc "offset" q) with
            | Some offset => slice_from (parseInt offset) sorted
            | None => sorted
            end in
          match given (assoc "limit" q) with
          | Some limit => slice_to (parseInt limit) result
          | None => result
          end)
         (length (stored w vin))).
Proof.
  intros Hv. unfold get_telemetry. run_monad.
  unfold known in Hv. by rewrite Hv.
Qed.

Lemma text_given text : text ≠ "" → given (Some text) = Some text.
Proof. intros Hne%String.eqb_neq. simpl. by rewrite Hne. Qed.

(** X14: the history query passes offset and limit through [parseInt] to
    [slice] without checking them.  For a known vehicle: a negative
    offset -n answers with the n oldest readings only; an offset that is
    not a number skips nothing; a limit that is not a number answers with
    no reading at all; a negative limit -n drops the n oldest readings.
    The total is the number of readings held in every case. *)
Theorem history_slicing_edges rt w vin :
  vin ≠ "" → known w vin →
  let sorted := js_sort newest_first (stored w vin) in
  let answer q := (app rt (GET_telemetry vin q) w).1 in
  (∀ text n, text ≠ "" → parseInt text = Some (- Z.of_nat n)%Z → (0 < n)%nat →
     answer [("offset", text)] =
       Respond 200
         (HistoryData (drop (length sorted - n) sorted) (length sorted))) ∧
  (∀ text, text ≠ "" → parseInt text = None →
     answer [("offset", text)] =
       Respond 200 (HistoryData sorted (length sorted))) ∧
  (∀ text, text ≠ "" → parseInt text = None →
     answer [("limit", text)] = Respond 200 (HistoryData [] (length sorted))) ∧
  (∀ text n, text ≠ "" → parseInt text = Some (- Z.of_nat n)%Z → (0 < n)%nat →
     answer [("limit", text)] =
       Respond 200
         (HistoryData (take (length sorted - n) sorted) (length sorted))).
Proof.
  intros Hne Hv sorted answer.
  assert (∀ q, answer q =
            Respond 200
              (HistoryData
                 (let result :=
                    match given (assoc "offset" q) with
                    | Some offset => slice_from (parseInt offset) sorted
                    | None => sorted
                    end in
                  match given (assoc "limit" q) with
                  | Some limit => slice_to (parseInt limit) result
                  | None => result
                  end) (length sorted))) as Hanswer.
  { intros q. unfold answer, GET_telemetry.
    rewrite app_get_telemetry, get_telemetry_answer by done.
    unfold sorted. by rewrite js_sort_length. }
  repeat split.
  - intros text n Htext Hparse Hn. rewrite Hanswer.
    change (assoc "offset" [("offset", text)]) with (Some text).
    change (assoc "limit" [("offset", text)]) with (@None string).
    rewrite text_given by done. cbv zeta. simpl given. cbv iota.
    rewrite Hparse. unfold slice_from, slice_index.
    destruct (Z.ltb_spec (- Z.of_nat n) 0); [|lia].
    do 3 f_equal. lia.
  - intros text Htext Hparse. rewrite Hanswer.
    change (assoc "offset" [("offset", text)]) with (Some text).
    change (assoc "limit" [("offset", text)]) with (@None string).
    rewrite text_given by done. cbv zeta. simpl given. cbv iota.
    by rewrite Hparse.
  - intros text Htext Hparse. rewrite Hanswer.
    change (assoc "offset" [("limit", text)]) with (@None string).
    change (assoc "limit" [("limit", text)]) with (Some text).
    rewrite text_given by done. cbv zeta. simpl given. cbv iota.
    by rewrite Hparse.
  - intros text n Htext Hparse Hn. rewrite Hanswer.
    change (assoc "offset" [("limit", text)]) with (@None string).
    change (assoc "limit" [("limit", text)]) with (Some text).
    rewrite text_given by done. cbv zeta. simpl given. cbv iota.
    rewrite Hparse. unfold slice_to, slice_index.
    destruct (Z.ltb_spec (- Z.of_nat n) 0); [|lia].
    do 3 f_equal. lia.
Qed.

Lemma stored_sorted_in_place w vin v :
  stored (set_telemetryData (alter (js_sort newest_first) vin) w) v =
    if decide (vin = v) then js_sort newest_first (stored w v) else stored w v.
Proof.
  unfold stored. simpl. destruct (decide (vin = v)) as [->|].
  - rewrite lookup_alter_eq. by destruct (telemetryData w !! v).
  - by rewrite lookup_alter_ne.
Qed.

(** X15: once a history query for a known vehicle was served, its array
    is stored newest first, and a further history query for that vehicle
    changes nothing in the storage and gets the answer it would have got
    before. *)
Theorem history_settles rt w vin q1 q2 :
  vin ≠ "" → known w vin →
  let w1 := (app rt (GET_telemetry vin q1) w).2 in
  non_increasing (stored w1 vin) ∧
  app rt (GET_telemetry vin q2) w1 = ((app rt (GET_telemetry vin q2) w).1, w1).
Proof.
  intros Hne Hv. unfold GET_telemetry. rewrite !app_get_telemetry by done.
  rewrite get_telemetry_storage by done.
  set (w1 := set_telemetryData _ w). simpl.
  assert (known w1 vin) as Hv1 by done.
  assert (stored w1 vin = js_sort newest_first (stored w vin)) as Hstored.
  { unfold w1. rewrite stored_sorted_in_place. by rewrite decide_True. }
  split; [rewrite Hstored; apply js_sort_newest_first|].
  rewrite (surjective_pairing (get_telemetry _ _ w1)). f_equal.
  - rewrite !get_telemetry_answer by done. rewrite Hstored.
    rewrite (js_sort_sorted TelemetryRecord.timestamp newest_first
               newest_first_key (js_sort newest_first (stored w vin)))
      by apply js_sort_newest_first.
    by rewrite js_sort_length.
  - rewrite get_telemetry_storage by done. unfold w1, set_telemetryData.
    simpl. f_equal. apply map_eq. intros k.
    destruct (decide (vin = k)) as [->|].
    + rewrite !lookup_alter_eq. destruct (telemetryData w !! k); [|done].
      simpl. f_equal.
      apply (js_sort_sorted TelemetryRecord.timestamp newest_first
               newest_first_key), js_sort_newest_first.
    + by rewrite !lookup_alter_ne.
Qed.

(** X16: the history of a known vehicle is a stable sort of its array:
    readings of one and the same timestamp come in the order in which
    the array holds them. *)
Theorem history_is_stable rt w vin :
  vin ≠ "" → known w vin →
  ∃ data,
    (app rt (GET_telemetry vin []) w).1 =
      Respond 200 (HistoryData data (length data)) ∧
    ∀ z, filter (λ t, TelemetryRecord.timestamp t = z) data =
         filter (λ t, TelemetryRecord.timestamp t = z) (stored w vin).
Proof.
  intros Hne Hv. exists (js_sort newest_first (stored w vin)). split.
  - unfold GET_telemetry. rewrite app_get_telemetry by done.
    rewrite get_telemetry_answer by done. simpl. by rewrite js_sort_length.
  - intros z. apply (js_sort_stable TelemetryRecord.timestamp newest_first
                       newest_first_key).
Qed.

(** X17: a GET request writes nothing but the order of a telemetry array
    and the count of clock readings: vehicles, alerts and identifiers
    drawn are as before, every vehicle holds the same readings, and
    unless the request is a history query the arrays are as before,
    order included. *)
Theorem get_requests_read_only rt req w :
  method req = GET →
  let w' := (app rt req w).2 in
  vehicles w' = vehicles w ∧ alerts w' = alerts w ∧ uuids w' = uuids w ∧
  (∀ v, stored w' v ≡ₚ stored w v) ∧
  (history_query req = false → telemetryData w' = telemetryData w).
Proof.
  intros Hget.
  destruct (app_routed rt req) as
    [Hm Hp|Hm Hp|vin Hm Hp Hne|vin Hm Hp Hne|vin Hm Hp Hne|vin Hm Hp Hne
    |vin Hm Hp Hne|vin Hm Hp Hne|Hm Hp|id Hm Hp Hne|id Hm Hp Hne|Hm Hp|Hd].
  all: try congruence.
  all: run_handler.
  all: try done.
  all: (split; [done|]; split; [done|]; split; [done|]; split;
        [ intros v; rewrite stored_sorted_in_place; case_decide;
          [apply js_sort_Permutation|done]
        | unfold history_query; rewrite Hget, Hp; simpl;
          apply String.eqb_neq in Hne; by rewrite Hne ]).
Qed.

Lemma app_clock_order rt req w :
  monotone_clock rt → consistent rt w → history_query req = false →
  (∀ v, non_decreasing (stored w v)) →
  ∀ v, non_decreasing (stored (app rt req w).2 v).
Proof.
  intros Hclock Hw Hq Hsorted v.
  destruct (app_routed rt req) as
    [Hm Hp|Hm Hp|vin Hm Hp Hne|vin Hm Hp Hne|vin Hm Hp Hne|vin Hm Hp Hne
    |vin Hm Hp Hne|vin Hm Hp Hne|Hm Hp|id Hm Hp Hne|id Hm Hp Hne|Hm Hp|Hd].
  all: run_handler_fully.
  all: try apply Hsorted.
  all: try (destruct w0 as [vs0 td0 al0 d0 u0]; simpl in *; subst).
  all: try (unfold history_query in Hq; rewrite Hm, Hp in Hq; simpl in Hq;
            apply String.eqb_neq in Hne; by rewrite Hne in Hq).
  all: unfold stored, set_telemetryData, set_vehicles; simpl.
  all: try ((* ingestion, answered or not *)
    destruct (decide (v = vin)) as [->|];
      [|rewrite pushed_lookup_ne by done; apply Hsorted];
    rewrite pushed_lookup; simpl; apply StronglySorted_app;
    (split; [|split; [apply Hsorted|repeat constructor]]);
    intros t1 t2 Ht1 ->%list_elem_of_singleton; simpl;
    (destruct (telemetryData w !! vin) as [records|] eqn:Hrecords;
       [|by apply elem_of_nil in Ht1]);
    destruct Hw as (_ & _ & HC & _);
    destruct (HC _ _ _ Hrecords Ht1) as (_ & i & Hi & ->);
    apply Hclock; lia).
  - (* registration *)
    destruct (decide (s = v)) as [->|].
    + rewrite lookup_insert_eq. constructor.
    + rewrite lookup_insert_ne by done. apply Hsorted.
  - (* update *) apply Hsorted.
  - (* deletion *)
    destruct (decide (vin = v)) as [->|].
    + rewrite lookup_delete_eq. constructor.
    + rewrite lookup_delete_ne by done. apply Hsorted.
Qed.

(** X18: when the clock never runs backwards, in every state reached
    without a history query each vehicle's array is in the order of its
    timestamps, oldest first: readings are stored in the order of their
    clock readings. *)
Theorem stored_in_clock_order rt reqs :
  monotone_clock rt → Forall (λ req, history_query req = false) reqs →
  ∀ v, non_decreasing (stored (serve rt reqs init).2 v).
Proof.
  intros Hclock Hreqs.
  assert (∀ w, consistent rt w → (∀ v, non_decreasing (stored w v)) →
               ∀ v, non_decreasing (stored (serve rt reqs w).2 v)) as Hrun.
  { induction Hreqs as [|req reqs Hreq Hreqs IH]; intros w Hw Hsorted; [done|].
    rewrite serve_cons.
    pose proof (app_clock_order rt req w Hclock Hw Hreq Hsorted) as Hstep.
    pose proof (app_consistent rt req w Hw) as Hw1.
    destruct (app rt req w) as [r w1]. specialize (IH w1 Hw1 Hstep).
    by destruct (serve rt reqs w1). }
  apply Hrun; [apply init_consistent|]. intros v. constructor.
Qed.

(** ** The alert listing *)

Lemma filter_by_passes p test (g : Alert.t → bool) l :
  filter_by p test (List.filter g l) =
  List.filter
    (λ a, g a && match given p with Some x => test x a | None => true end) l.
Proof.
  unfold filter_by. destruct (given p) as [x|].
  - induction l as [|a l IH]; [done|]. simpl.
    destruct (g a); simpl; [|done]. destruct (test x a); by rewrite IH.
  - apply List.filter_ext. intros a. by rewrite andb_true_r.
Qed.

Lemma filter_true {A} (l : list A) : List.filter (λ _, true) l = l.
Proof. induction l as [|a l IH]; [done|]. simpl. by rewrite IH. Qed.

Lemma list_alerts_passes q alertList :
  list_alerts q alertList =
    js_sort newest_alert_first (List.filter (passes q) alertList).
Proof.
  unfold list_alerts. f_equal.
  rewrite <- (filter_true alertList) at 1.
  rewrite !filter_by_passes. apply List.filter_ext. intros a.
  unfold passes. done.
Qed.

Lemma newest_alert_first_key a b :
  newest_alert_first a b = (Alert.timestamp b - Alert.timestamp a)%Z.
Proof. reflexivity. Qed.

(** X19: the alert listing answers exactly the alerts that pass every
    filter the query gives (a missing or empty parameter filters
    nothing), newest first, alerts of one timestamp in the order of the
    ledger. *)
Theorem alert_listing q alertList :
  let data := list_alerts q alertList in
  data ≡ₚ List.filter (passes q) alertList ∧
  StronglySorted (λ a b, (Alert.timestamp b ≤ Alert.timestamp a)%Z) data ∧
  ∀ z, filter (λ a, Alert.timestamp a = z) data =
       filter (λ a, Alert.timestamp a = z) (List.filter (passes q) alertList).
Proof.
  cbv zeta. rewrite list_alerts_passes. split; [apply js_sort_Permutation|].
  split.
  - apply (js_sort_descending Alert.timestamp), newest_alert_first_key.
  - intros z. apply (js_sort_stable Alert.timestamp), newest_alert_first_key.
Qed.

(** ** The batch handler *)

Lemma readable_vin record : readable record → get_prop record "vin" ≠ None.
Proof. intros [??]. by destruct record. Qed.

Lemma batch_appended_app vin results1 results2 :
  batch_appended vin (results1 ++ results2) =
    batch_appended vin results1 ++ batch_appended vin results2.
Proof. unfold batch_appended. apply flat_map_app. Qed.

Lemma batch_forEach_run rt records : ∀ results allAlerts w,
  Forall (passable (vehicles w)) records →
  ∃ results' alerts' w1,
    batch_forEach rt records results allAlerts w =
      (Some (results ++ results', allAlerts ++ alerts'), w1) ∧
    Forall2 (batch_reports (vehicles w)) records results' ∧
    vehicles w1 = vehicles w ∧
    (∀ vin, stored w1 vin = stored w vin ++ batch_appended vin results') ∧
    Forall (λ a, ∃ t, BatchOk (Alert.vin a) t ∈ results' ∧ produced rt t a)
      alerts' ∧
    (∀ id a, alerts w1 !! id = Some a →
       alerts w !! id = Some a ∨ a ∈ alerts').
Proof.
  induction records as [|record records IH]; intros results allAlerts w Hrec.
  { exists [], [], w. rewrite !app_nil_r. simpl.
    split; [done|]. split; [constructor|]. split; [done|].
    split; [intros; by rewrite app_nil_r|]. split; [constructor|auto]. }
  apply Forall_cons in Hrec as [[Hr Hconv] Hrec]. apply readable_vin in Hr.
  simpl. destruct (get_prop record "vin") as [record_vin|] eqn:Hvin; [|done].
  assert (prop record "vin" = record_vin) as Hprop
    by (unfold prop; by rewrite Hvin).
  unfold bind at 1, get at 1.
  assert (∀ w', vehicles w' = vehicles w →
     (∀ s, record_vin = JStr s → has (vehicles w) s = false) →
     ∃ results' alerts' w1,
       batch_forEach rt records
         (results ++ [BatchFail record_vin "Vehicle not found"]) allAlerts w' =
         (Some (results ++ results', allAlerts ++ alerts'), w1) ∧
       Forall2 (batch_reports (vehicles w)) (record :: records) results' ∧
       vehicles w1 = vehicles w ∧
       (∀ vin, stored w1 vin = stored w' vin ++ batch_appended vin results') ∧
       Forall (λ a, ∃ t, BatchOk (Alert.vin a) t ∈ results' ∧ produced rt t a)
         alerts' ∧
       (∀ id a, alerts w1 !! id = Some a →
          alerts w' !! id = Some a ∨ a ∈ alerts')) as Hfail.
  { intros w' Hw' Hunknown. rewrite <- Hw' in Hrec.
    destruct (IH (results ++ [BatchFail record_vin "Vehicle not found"])
                allAlerts w' Hrec)
      as (results' & alerts' & w1 & -> & Hrep & Hveh & Hst & Hal & Hled).
    exists (BatchFail record_vin "Vehicle not found" :: results'), alerts', w1.
    rewrite <- app_assoc. simpl. split; [done|]. split.
    { constructor; [|by rewrite <- Hw'].
      split; [by rewrite Hprop|]. split; [done|exact Hunknown]. }
    split; [congruence|]. split; [done|]. split; [|done].
    eapply Forall_impl; [exact Hal|]. simpl. intros a (t & Ht & Hp).
    exists t. split; [by right|done]. }
  destruct record_vin as [| | | |vin| | |]; try (apply Hfail; done).
  destruct (has (vehicles w) vin) eqn:Hhas;
    [|apply Hfail; [done|by intros s [= <-]]].
  clear Hfail. specialize (Hconv vin Hprop Hhas). run_monad.
  match goal with |- context [generateAlerts rt ?r _] => set (t := r) end.
  match goal with |- context [generateAlerts rt t ?s] => set (w' := s) end.
  pose proof (generateAlerts_storage rt t w') as Hgen.
  pose proof (generateAlerts_events rt t w') as Hev.
  change (comparable t) with (levels_convert record) in Hev.
  rewrite Hconv in Hev.
  destruct (generateAlerts rt t w') as [[generated|] w'']; [|done].
  destruct Hgen as (Hveh' & Htd' & Hprod & _ & Hled').
  specialize (Hled' generated eq_refl). simpl in Hprod.
  assert (vehicles w'' = vehicles w) as Hsame by (by rewrite Hveh').
  rewrite <- Hsame in Hrec.
  destruct (IH (results ++ [BatchOk vin t]) (allAlerts ++ generated) w'' Hrec)
    as (results' & alerts' & w1 & -> & Hrep & Hveh & Hst & Hal & Hled).
  exists (BatchOk vin t :: results'), (generated ++ alerts'), w1.
  rewrite <- !app_assoc. simpl. split; [done|]. split.
  { constructor; [by repeat split|]. rewrite Hsame in Hrep. exact Hrep. }
  split; [by rewrite Hveh|]. split.
  { intros v. rewrite Hst. unfold stored at 1. rewrite Htd'. unfold w'.
    simpl. unfold batch_appended at 2. simpl.
    fold (batch_appended v results').
    destruct (decide (vin = v)) as [->|Hv].
    - rewrite pushed_lookup. simpl. by rewrite <- app_assoc.
    - by rewrite pushed_lookup_ne. }
  split.
  { apply Forall_app. split.
    - eapply Forall_impl; [exact Hprod|]. simpl. intros a Hp.
      exists t. split; [|done]. destruct Hp as [-> _]. by left.
    - eapply Forall_impl; [exact Hal|]. simpl. intros a (t' & Ht' & Hp).
      exists t'. split; [by right|done]. }
  intros id a [Hold|Hnew]%Hled; [|right; set_solver].
  apply Hled' in Hold as [Hold|Hnew]; [by left|right; set_solver].
Qed.

(** X20: the batch handler, given an array of records none of which is
    [null] or [undefined] and in which the levels of every record for a
    registered vehicle convert to numbers, answers 201 with one report
    per record in the order of the array: a success with the reading for
    a record that names a registered vehicle, "Vehicle not found" for
    any other; each vehicle's array gains the readings reported for it,
    in order; the registry is not written; every alert answered is what
    a rule makes of a reading reported as a success, and the ledger
    gains nothing but the alerts answered, whose count is the total
    reported. *)
Theorem batch_reports_each_record rt params req w records :
  get_prop (body req) "records" = Some (JArr records) →
  Forall (passable (vehicles w)) records →
  ∃ results allAlerts w1,
    post_telemetry_batch rt params req w =
      (Respond 201 (BatchData results (length allAlerts) allAlerts), w1) ∧
    Forall2 (batch_reports (vehicles w)) records results ∧
    vehicles w1 = vehicles w ∧
    (∀ vin, stored w1 vin = stored w vin ++ batch_appended vin results) ∧
    Forall (λ a, ∃ t, BatchOk (Alert.vin a) t ∈ results ∧ produced rt t a)
      allAlerts ∧
    (∀ id a, alerts w1 !! id = Some a →
       alerts w !! id = Some a ∨ a ∈ allAlerts).
Proof.
  intros Hbody Hrec. unfold post_telemetry_batch. rewrite Hbody.
  destruct (batch_forEach_run rt records [] [] w Hrec)
    as (results & allAlerts & w1 & Hrun & H).
  exists results, allAlerts, w1. split; [|exact H].
  unfold bind. rewrite Hrun. done.
Qed.

Lemma batch_forEach_throws rt good bad rest : ∀ results allAlerts w,
  Forall readable good → get_prop bad "vin" = None →
  batch_forEach rt (good ++ bad :: rest) results allAlerts w =
    (None, (batch_forEach rt good results allAlerts w).2).
Proof.
  induction good as [|record good IH]; intros results allAlerts w Hgood Hbad.
  { simpl. by rewrite Hbad. }
  apply Forall_cons in Hgood as [Hr Hgood]. apply readable_vin in Hr.
  simpl. destruct (get_prop record "vin") as [record_vin|]; [|done].
  run_monad. destruct record_vin; try (by apply IH).
  destruct (has (vehicles w) _); [|by apply IH].
  destruct (generateAlerts rt _ _) as [[generated|] w']; [by apply IH|done].
Qed.

(** X21: a batch whose array holds [null] or [undefined] after readable
    records is answered 500, and what the records before it wrote stays
    written; records that is not an array is answered 400 and a body
    that is [null] or [undefined] 500, both with nothing written. *)
Theorem batch_aborts_midway rt params w :
  (∀ req good bad rest,
     get_prop (body req) "records" = Some (JArr (good ++ bad :: rest)) →
     Forall readable good → bad = JNull ∨ bad = JUndefined →
     post_telemetry_batch rt params req w =
       (Respond 500 InternalError,
        (post_telemetry_batch rt params (POST_telemetry_batch good) w).2)) ∧
  (∀ req v,
     get_prop (body req) "records" = Some v → (∀ records, v ≠ JArr records) →
     post_telemetry_batch rt params req w =
       (Respond 400 (Failure "Records must be an array"), w)) ∧
  (∀ req,
     body req = JNull ∨ body req = JUndefined →
     post_telemetry_batch rt params req w = (Respond 500 InternalError, w)).
Proof.
  split; [|split].
  - intros req good bad rest Hbody Hgood Hbad. unfold post_telemetry_batch.
    rewrite Hbody. unfold bind. simpl.
    rewrite batch_forEach_throws by (by destruct Hbad as [-> | ->]).
    destruct (batch_forEach rt good [] [] w) as [[[??]|] ?]; done.
  - intros req v Hbody Hv. unfold post_telemetry_batch. rewrite Hbody.
    destruct v as [| | | | | |records|]; try done. by destruct (Hv records).
  - intros req Hbody. unfold post_telemetry_batch.
    by destruct Hbody as [-> | ->].
Qed.

(** ** The counts of the health check *)

Section Totals.
Context (m : gmap string (list TelemetryRecord.t)).
Abbreviation total := (map_fold (λ _ records sum, (sum + length records)%nat) 0%nat).

Lemma total_delete k :
  (total (delete k m) + length (default [] (m !! k)) = total m)%nat.
Proof.
  destruct (m !! k) as [old|] eqn:Hk; simpl.
  - rewrite <- (insert_delete_id m k old Hk) at 2.
    rewrite map_fold_insert_L; [done| |apply lookup_delete_eq].
    intros. lia.
  - rewrite delete_id by done. lia.
Qed.

Lemma total_insert k records :
  (total (<[k:=records]> m) + length (default [] (m !! k)) =
   total m + length records)%nat.
Proof.
  rewrite <- insert_delete_eq.
  rewrite map_fold_insert_L; [| |apply lookup_delete_eq].
  - pose proof (total_delete k). lia.
  - intros. lia.
Qed.
End Totals.

Lemma total_alter (m : gmap string (list TelemetryRecord.t)) f k :
  (∀ records, length (f records) = length records) →
  map_fold (λ _ records sum, (sum + length records)%nat) 0%nat (alter f k m) =
  map_fold (λ _ records sum, (sum + length records)%nat) 0%nat m.
Proof.
  intros Hf. destruct (m !! k) as [old|] eqn:Hk.
  - rewrite <- (insert_id m k old Hk) at 1. rewrite alter_insert_eq.
    pose proof (total_insert m k (f old)) as Hins.
    rewrite Hk, Hf in Hins. simpl in Hins. lia.
  - f_equal. apply map_eq. intros j. destruct (decide (k = j)) as [->|].
    + by rewrite lookup_alter_eq, Hk.
    + by rewrite lookup_alter_ne.
Qed.

Lemma total_pushed (m : gmap string (list TelemetryRecord.t)) vin t :
  map_fold (λ _ records sum, (sum + length records)%nat) 0%nat
    (alter (λ records, records ++ [t]) vin
       (if negb (has m vin) then <[vin:=[]]> m else m)) =
  S (map_fold (λ _ records sum, (sum + length records)%nat) 0%nat m).
Proof.
  destruct (has m vin) eqn:Hh; simpl.
  - apply has_true in Hh as [old Hk].
    rewrite <- (insert_id m vin old Hk) at 1. rewrite alter_insert_eq.
    pose proof (total_insert m vin (old ++ [t])) as Hins.
    rewrite Hk, length_app in Hins. simpl in Hins. lia.
  - apply has_false in Hh. rewrite alter_insert_eq.
    pose proof (total_insert m vin ([] ++ [t])) as Hins.
    rewrite Hh in Hins. simpl in *. lia.
Qed.

(** X22: the counts of the health check follow the requests for a
    registered vehicle: a reading ingested adds one to the readings and
    leaves the vehicles as many; a history query changes no count;
    deleting the vehicle takes one from the vehicles and the vehicle's
    readings from the readings, and leaves the alerts as many. *)
Theorem health_counts rt w vin :
  vin ≠ "" → known w vin →
  let '(totalVehicles, totalAlerts, totalTelemetryRecords) := health_stats w in
  (∀ b, readable b →
     ∃ n, health_stats (app rt (POST_telemetry vin b) w).2 =
            (totalVehicles, n, S totalTelemetryRecords)) ∧
  (∀ q, health_stats (app rt (GET_telemetry vin q) w).2 = health_stats w) ∧
  ∃ n r, health_stats (app rt (DELETE_vehicle vin) w).2 = (n, totalAlerts, r) ∧
         S n = totalVehicles ∧
         (r + length (stored w vin))%nat = totalTelemetryRecords.
Proof.
  intros Hne Hknown. unfold health_stats. split; [|split].
  - intros b [Hnull Hundef]. unfold POST_telemetry.
    rewrite app_post_telemetry, post_telemetry_known by done. cbv zeta.
    match goal with |- context [generateAlerts rt ?t ?w0] =>
      pose proof (generateAlerts_storage rt t w0) as Hgen;
      destruct (generateAlerts rt t w0) as [generated w1]
    end.
    destruct Hgen as (Hveh & Htd & _). simpl in *. rewrite Hveh, Htd.
    eexists. by rewrite total_pushed.
  - intros q. unfold GET_telemetry. rewrite app_get_telemetry by done.
    rewrite get_telemetry_storage by done. simpl.
    rewrite total_alter; [done|]. intros records. apply js_sort_length.
  - unfold DELETE_vehicle. rewrite app_delete_vehicle by done.
    unfold delete_vehicle. run_monad. unfold known in Hknown.
    rewrite Hknown. simpl. do 2 eexists. split; [done|]. split.
    + apply has_true in Hknown.
      rewrite map_size_delete_Some by done.
      destruct Hknown as [v Hv].
      assert (size (vehicles w) ≠ 0%nat) as Hsize; [|lia].
      intros Hempty%map_size_empty_iff.
      by rewrite Hempty, lookup_empty in Hv.
    + apply total_delete.
Qed.

(** ** Fetching alerts *)

Lemma app_get_alert rt alertId q b :
  alertId ≠ "" →
  app rt (mkRequest GET ["api"; "alerts"; alertId] q b) =
    get_alert [("alertId", alertId)]
      (mkRequest GET ["api"; "alerts"; alertId] q b).
Proof.
  intros Hne%String.eqb_neq. unfold app, routes. cbn. by rewrite Hne.
Qed.

(** X23: a status update is read back: after the status of an alert of
    the ledger was set to a truthy value, fetching the alert answers it
    with that status and every other field as before, and fetching any
    other alert answers what it answered before. *)
Theorem update_then_fetch rt w alertId alert status :
  alertId ≠ "" → alerts w !! alertId = Some alert → truthy status = true →
  let w1 := (app rt (PUT_alert alertId status) w).2 in
  app rt (GET_alert alertId) w1 =
    (Respond 200 (AlertData (Alert.with_status alert status)), w1) ∧
  ∀ k, k ≠ "" → k ≠ alertId →
    (app rt (GET_alert k) w1).1 = (app rt (GET_alert k) w).1.
Proof.
  intros Hne Halert Htruthy w1.
  assert (w1 = set_alerts (insert alertId (Alert.with_status alert status)) w)
    as ->.
  { unfold w1, PUT_alert. rewrite app_update_alert by done.
    unfold update_alert. run_monad. rewrite Halert. cbn.
    by rewrite Htruthy. }
  unfold GET_alert. split.
  - rewrite app_get_alert by done. unfold get_alert. run_monad.
    by rewrite lookup_insert_eq.
  - intros k Hk Hother. rewrite !app_get_alert by done.
    unfold get_alert. run_monad. rewrite lookup_insert_ne by done.
    by destruct (alerts w !! k).
Qed.

(** X24: for an identifier the ledger does not hold, fetching the alert
    and updating its status are answered 404 "Alert not found", whatever
    the query or the body, and the storage is left as it was. *)
Theorem unknown_alert_not_found rt w alertId q b :
  alertId ≠ "" → alerts w !! alertId = None →
  app rt (mkRequest GET ["api"; "alerts"; alertId] q b) w =
    (not_found "Alert not found", w) ∧
  app rt (mkRequest PUT ["api"; "alerts"; alertId] q b) w =
    (not_found "Alert not found", w).
Proof.
  intros Hne Hnone. rewrite app_get_alert, app_update_alert by done.
  unfold get_alert, update_alert. run_monad. by rewrite Hnone.
Qed.

(** ** Worked instances of the further properties *)

Lemma example_uuid_inj : Inj (=) (=) (uuid example_runtime).
Proof. intros i j H. by apply (inj pretty) in H. Qed.

Lemma example_clock_monotone : monotone_clock example_runtime.
Proof. intros i j H. simpl. lia. Qed.

Lemma witness_registry_keys :
  let w := (serve example_runtime two_vehicles init).2 in
  ∃ v, vehicles w !! VIN1 = Some v ∧
       Vehicle.vin v = VIN1 ∧ String.length VIN1 = 17%nat.
Proof.
  intros w.
  destruct (vehicles w !! VIN1) as [v|] eqn:Hv; [|by vm_compute in Hv].
  exists v. split; [done|].
  exact (registry_keys example_runtime two_vehicles VIN1 v Hv).
Defined.

Lemma witness_register_then_fetch :
  let w1 := (app example_runtime (POST_vehicles (vehicle_body VIN1)) init).2 in
  ∃ vehicle,
    app example_runtime (GET_vehicle VIN1) w1 =
      (Respond 200 (VehicleData vehicle), w1) ∧
    (app example_runtime (GET_telemetry VIN1 []) w1).1 =
      Respond 200 (HistoryData [] 0).
Proof.
  intros w1.
  pose proof (register_then_fetch example_runtime init (vehicle_body VIN1) VIN1
                ltac:(by vm_compute) ltac:(by vm_compute)
                ltac:(by vm_compute)) as H.
  cbv zeta in H. unfold w1.
  set (rw := app example_runtime (POST_vehicles (vehicle_body VIN1)) init) in *.
  destruct rw as [r w']. destruct H as (_ & Hget & Hhist & _).
  eexists. split; [exact Hget|exact Hhist].
Defined.

Lemma witness_update_overwrites :
  let w := (serve example_runtime two_vehicles init).2 in
  let updates := [("owner", JStr "Jane Doe"); ("fleetId", JStr "Rental")] in
  ∃ v',
    (app example_runtime (PUT_vehicle VIN1 (JObj updates)) w).1 =
      Respond 200 (VehicleData v') ∧
    Vehicle.owner v' = JStr "Jane Doe" ∧ Vehicle.model v' = JStr "Model S" ∧
    Vehicle.vin v' = VIN1.
Proof.
  intros w updates.
  assert (NoDup updates.*1) as Hnd
    by (apply (bool_decide_unpack _); by vm_compute).
  pose proof (update_overwrites example_runtime w VIN1
                (Vehicle.mk VIN1 (JStr "Tesla") (JStr "Model S")
                   (JStr "Corporate") (JStr "John Doe") (JStr "Active")
                   (JDate 0) (JDate 1000))
                updates ltac:(discriminate) ltac:(by vm_compute) Hnd) as H.
  set (rw := app example_runtime (PUT_vehicle VIN1 (JObj updates)) w) in *.
  destruct rw as [r w1].
  destruct H as (v' & Hr & _ & _ & _ & Hvin & _ & Hmodel & _ & Howner & _).
  exists v'. split; [exact Hr|]. split; [exact Howner|].
  split; [exact Hmodel|exact Hvin].
Defined.

Lemma witness_delete_forgets :
  let w := (serve example_runtime two_readings init).2 in
  let w1 := (app example_runtime (DELETE_vehicle VIN1) w).2 in
  has (vehicles w1) VIN1 = false ∧ stored w1 VIN1 = [].
Proof.
  intros w w1.
  pose proof (delete_forgets example_runtime w VIN1 ltac:(discriminate)
                ltac:(by vm_compute)) as H.
  unfold w1. set (rw := app example_runtime (DELETE_vehicle VIN1) w) in *.
  destruct rw as [r w']. destruct H as (_ & _ & _ & _ & Hhas & Hstored).
  split; [exact Hhas|exact Hstored].
Defined.

Lemma witness_unknown_vehicle_not_found :
  app example_runtime (GET_vehicle VIN1) init =
    (not_found "Vehicle not found", init) ∧
  app example_runtime (POST_telemetry VIN1 (JObj [])) init =
    (not_found "Vehicle not found", init).
Proof.
  pose proof (unknown_vehicle_not_found example_runtime init VIN1 [] (JObj [])
                ltac:(discriminate) ltac:(by vm_compute))
    as (Hget & _ & _ & Hpost & _).
  split; [exact Hget|exact Hpost].
Defined.

Lemma witness_ingestion_stores :
  let w := (serve example_runtime two_vehicles init).2 in
  let b := telemetry_body (num 90) unconvertible (num 5) in
  let t := TelemetryRecord.mk "0" VIN1 (num 90) unconvertible (num 5)
             JUndefined (JStr "Running") 4000 in
  let '(r, w1) := app example_runtime (POST_telemetry VIN1 b) w in
  stored w VIN1 = [] ∧ stored w1 VIN1 = [t] ∧
  r = Respond 500 InternalError ∧
  alerts w = ∅ ∧
  map (λ ka, event ka.2) (map_to_list (alerts w1)) = [(SpeedViolation, High)].
Proof.
  intros w b t.
  pose proof (ingestion_stores example_runtime w VIN1 b ltac:(discriminate)
                ltac:(by vm_compute) ltac:(discriminate)
                ltac:(discriminate)) as H.
  cbv zeta in H.
  assert (map (λ ka, event ka.2)
            (map_to_list
               (alerts (app example_runtime (POST_telemetry VIN1 b) w).2)) =
          [(SpeedViolation, High)]) as Halerts by (vm_compute; reflexivity).
  destruct (app example_runtime (POST_telemetry VIN1 b) w) as [r w1].
  destruct H as (Hstored & _ & _ & Hr).
  split; [vm_compute; reflexivity|]. split; [exact Hstored|].
  split; [exact Hr|]. split; [vm_compute; reflexivity|exact Halerts].
Defined.

Lemma witness_generated_alerts_recorded :
  let w := (serve example_runtime two_vehicles init).2 in
  let rw :=
    app example_runtime
      (POST_telemetry VIN1 (telemetry_body (num 90) (num 10) (num 50))) w in
  ∃ t generated,
    rw.1 = Respond 201 (TelemetryData t generated) ∧
    length generated = 2%nat ∧
    size (alerts rw.2) = (size (alerts w) + length generated)%nat.
Proof.
  intros w rw.
  pose proof (generated_alerts_recorded example_runtime two_vehicles VIN1
                (telemetry_body (num 90) (num 10) (num 50))
                example_uuid_inj ltac:(discriminate)) as H.
  cbv zeta in H. fold w in H. fold rw in H.
  assert (∃ t generated, rw.1 = Respond 201 (TelemetryData t generated) ∧
                         length generated = 2%nat)
    as (t & generated & Hr & Hlen).
  { eexists _, _. split; vm_compute; reflexivity. }
  exists t, generated. split; [done|]. split; [done|].
  destruct rw as [r w1]. simpl in *. by destruct (H t generated Hr).
Defined.

Lemma witness_alerts_are_kept :
  let w1 := (serve example_runtime (take 2 alert_scenario) init).2 in
  let w2 := (serve example_runtime (drop 2 alert_scenario) w1).2 in
  ∃ a a',
    alerts w1 !! "1" = Some a ∧ alerts w2 !! "1" = Some a' ∧
    Alert.id a = "1" ∧ a' = Alert.with_status a (Alert.status a').
Proof.
  intros w1 w2.
  destruct (alerts w1 !! "1") as [a|] eqn:Ha; [|by vm_compute in Ha].
  destruct (alerts_are_kept example_runtime (take 2 alert_scenario)
              (drop 2 alert_scenario) example_uuid_inj "1" a Ha)
    as (Hid & a' & Ha' & Hsame).
  by exists a, a'.
Defined.

Lemma witness_status_changes_only_by_update :
  let w := (serve example_runtime (take 2 alert_scenario) init).2 in
  is_Some (alerts w !! "1") ∧
  alerts (app example_runtime (DELETE_vehicle VIN1) w).2 !! "1" =
    alerts w !! "1".
Proof.
  intros w.
  destruct (alerts w !! "1") as [a|] eqn:Ha; [|by vm_compute in Ha].
  split; [by exists a|].
  exact (status_changes_only_by_update example_runtime
           (take 2 alert_scenario) (DELETE_vehicle VIN1) "1" a
           example_uuid_inj ltac:(by vm_compute) Ha).
Defined.

Lemma witness_status_is_not_validated :
  let w := (serve example_runtime alert_scenario init).2 in
  ∃ alert,
    alerts w !! "1" = Some alert ∧
    app example_runtime (PUT_alert "1" (num 5)) w =
      (Respond 200 (AlertData (Alert.with_status alert (num 5))),
       set_alerts (insert "1" (Alert.with_status alert (num 5))) w) ∧
    app example_runtime (PUT_alert "1" (JStr "")) w =
      (Respond 200 (AlertData alert), w).
Proof.
  intros w.
  destruct (alerts w !! "1") as [alert|] eqn:Ha; [|by vm_compute in Ha].
  exists alert. split; [done|]. split.
  - exact (status_is_not_validated example_runtime w "1" [] alert
             [("status", num 5)] ltac:(discriminate) Ha).
  - exact (status_is_not_validated example_runtime w "1" [] alert
             [("status", JStr "")] ltac:(discriminate) Ha).
Defined.

Lemma witness_history_slicing_edges :
  let w := (serve example_runtime two_readings init).2 in
  let sorted := js_sort newest_first (stored w VIN1) in
  (app example_runtime (GET_telemetry VIN1 [("offset", "-1")]) w).1 =
    Respond 200
      (HistoryData (drop (length sorted - 1) sorted) (length sorted)) ∧
  (app example_runtime (GET_telemetry VIN1 [("limit", "abc")]) w).1 =
    Respond 200 (HistoryData [] (length sorted)).
Proof.
  intros w sorted.
  pose proof (history_slicing_edges example_runtime w VIN1
                ltac:(discriminate) ltac:(by vm_compute))
    as (Hnegative & _ & Hnan & _).
  split.
  - apply (Hnegative "-1" 1%nat); [discriminate|by vm_compute|lia].
  - apply (Hnan "abc"); [discriminate|by vm_compute].
Defined.

Lemma witness_history_settles :
  let w := (serve example_runtime two_readings init).2 in
  let w1 := (app example_runtime (GET_telemetry VIN1 []) w).2 in
  non_increasing (stored w1 VIN1) ∧
  app example_runtime (GET_telemetry VIN1 [("limit", "1")]) w1 =
    ((app example_runtime (GET_telemetry VIN1 [("limit", "1")]) w).1, w1).
Proof.
  intros w.
  exact (history_settles example_runtime w VIN1 [] [("limit", "1")]
           ltac:(discriminate) ltac:(by vm_compute)).
Defined.

Lemma witness_history_is_stable :
  let w := (serve example_runtime two_readings init).2 in
  ∃ data,
    (app example_runtime (GET_telemetry VIN1 []) w).1 =
      Respond 200 (HistoryData data (length data)) ∧
    ∀ z, filter (λ t, TelemetryRecord.timestamp t = z) data =
         filter (λ t, TelemetryRecord.timestamp t = z) (stored w VIN1).
Proof.
  intros w.
  exact (history_is_stable example_runtime w VIN1 ltac:(discriminate)
           ltac:(by vm_compute)).
Defined.

Lemma witness_get_requests_read_only :
  let w := (serve example_runtime two_readings init).2 in
  let w' := (app example_runtime (GET_telemetry_latest VIN1) w).2 in
  vehicles w' = vehicles w ∧ alerts w' = alerts w ∧
  telemetryData w' = telemetryData w.
Proof.
  intros w w'.
  pose proof (get_requests_read_only example_runtime
                (GET_telemetry_latest VIN1) w eq_refl)
    as (Hvehicles & Halerts & _ & _ & Hdata).
  split; [exact Hvehicles|]. split; [exact Halerts|].
  apply Hdata. by vm_compute.
Defined.

Lemma witness_stored_in_clock_order :
  non_decreasing (stored (serve example_runtime two_readings init).2 VIN1).
Proof.
  apply (stored_in_clock_order example_runtime two_readings
           example_clock_monotone).
  repeat constructor.
Defined.

Lemma witness_batch_reports_each_record :
  let w := (serve example_runtime two_vehicles init).2 in
  let records :=
    [ JObj [("vin", JStr VIN1); ("speed", num 85)];
      JObj [("vin", JStr "9XXXX00000X000000"); ("speed", unconvertible)];
      JNum NaN ] in
  ∃ results allAlerts w1,
    post_telemetry_batch example_runtime [] (POST_telemetry_batch records) w =
      (Respond 201 (BatchData results (length allAlerts) allAlerts), w1) ∧
    Forall2 (batch_reports (vehicles w)) records results ∧
    vehicles w1 = vehicles w ∧
    (∀ vin, stored w1 vin = stored w vin ++ batch_appended vin results) ∧
    Forall
      (λ a, ∃ t, BatchOk (Alert.vin a) t ∈ results ∧
                 produced example_runtime t a)
      allAlerts ∧
    (∀ id a, alerts w1 !! id = Some a →
       alerts w !! id = Some a ∨ a ∈ allAlerts).
Proof.
  intros w records.
  apply (batch_reports_each_record example_runtime []
           (POST_telemetry_batch records) w records eq_refl).
  repeat constructor; try discriminate.
  all: intros vin [= <-]; by vm_compute.
Defined.

Lemma witness_health_counts :
  let w := (serve example_runtime two_readings init).2 in
  health_stats w = (1%nat, 0%nat, 2%nat) ∧
  health_stats (app example_runtime (GET_telemetry VIN1 []) w).2 =
    (1%nat, 0%nat, 2%nat) ∧
  ∃ n, health_stats (app example_runtime (POST_telemetry VIN1 (JObj [])) w).2 =
         (1%nat, n, 3%nat).
Proof.
  intros w.
  assert (health_stats w = (1%nat, 0%nat, 2%nat)) as Hstats by by vm_compute.
  pose proof (health_counts example_runtime w VIN1 ltac:(discriminate)
                ltac:(by vm_compute)) as H.
  rewrite Hstats in H. destruct H as (Hpost & Hget & _).
  split; [done|]. split; [apply Hget|].
  apply Hpost. split; discriminate.
Defined.

Lemma witness_update_then_fetch :
  let w := (serve example_runtime alert_scenario init).2 in
  let w1 := (app example_runtime (PUT_alert "1" (JStr "Resolved")) w).2 in
  ∃ alert,
    alerts w !! "1" = Some alert ∧
    app example_runtime (GET_alert "1") w1 =
      (Respond 200 (AlertData (Alert.with_status alert (JStr "Resolved"))),
       w1).
Proof.
  intros w w1.
  destruct (alerts w !! "1") as [alert|] eqn:Ha; [|by vm_compute in Ha].
  exists alert. split; [done|].
  exact (proj1 (update_then_fetch example_runtime w "1" alert
                  (JStr "Resolved") ltac:(discriminate) Ha eq_refl)).
Defined.

Lemma witness_unknown_alert_not_found :
  app example_runtime (GET_alert "7") init =
    (not_found "Alert not found", init) ∧
  app example_runtime (PUT_alert "7" (JStr "Resolved")) init =
    (not_found "Alert not found", init).
Proof.
  split.
  - exact (proj1 (unknown_alert_not_found example_runtime init "7" []
                    (JObj []) ltac:(discriminate) eq_refl)).
  - exact (proj2 (unknown_alert_not_found example_runtime init "7" []
                    (JObj [("status", JStr "Resolved")])
                    ltac:(discriminate) eq_refl)).
Defined.
